(** * Verification of the cliff-watch correlation core.

    Shallow embedding of parts of [crates/cliff-watch-core]:
    - [monitor.rs]: [AttentionBattery] (leaky energy accumulator), the
      per-path [Debouncer], [MonitorConfig::new], [normalize_rel],
      [should_ignore], the watcher callback and consumer loop of
      [FileMonitor::run], and the correlation loop of [GitMonitor]
      ([new], [handle_input_event], [handle_sensor_event],
      [handle_file_event], [run_analysis]);
    - [focus_session.rs]: [FocusTracker] and [get_metrics];
    - [stats.rs]: [get_intervals], [calculate_std_dev],
      [is_synthetic_pattern], [calculate_burstiness],
      [estimate_pareto_alpha], [calculate_human_score],
      [calculate_coupling_score], [calculate_dynamic_threshold];
    - [complexity.rs]: the entropic cost estimator and the NCD against the
      repository context, for any [zstd] compressor and [syn] parser;
    - [crypto.rs]: [sign_data] and [verify_signature], for any Ed25519
      implementation;
    - [crates/cliff-watch-daemon/src/ipc.rs]: the [GetTicket] handler.

    Modelling choices.
    - [f64] values are modelled by the reals [R] (exact arithmetic);
      [usize]/[u64] counters by [nat]/[Z]; [u128] microsecond timestamps
      by [Z] with the saturating operations written out.
    - [SystemTime::now()] is an explicit [now] argument of every
      operation that reads the clock.
    - In the FileMonitor a normalized [PathBuf] is the list of its
      components; in the FocusTracker (which builds paths with
      [PathBuf::from(&str)]) it is given by a string and keyed by the
      rendering of its components, [Focus.pathbuf_from].
    - [HashMap]/[HashSet] are stdpp [gmap]/[gset]. *)

From Stdlib Require Import Reals Lra Lia ZArith Ascii String Sorted DecimalString.
From stdpp Require Import base gmap sets list strings.

(* ================================================================= *)
(** ** AttentionBattery (monitor.rs, lines 450-541) *)
(* ================================================================= *)

Module Battery.
Local Open Scope R_scope.

Record AttentionBattery := mkBattery {
  level : R;
  capacity : R;
  last_decay : R;            (* SystemTime, seconds *)
  leak_rate : R;
  causal_event_count : nat
}.

(** [AttentionBattery::new()] *)
Definition new (now : R) : AttentionBattery :=
  {| level := 15; capacity := 100; last_decay := now; leak_rate := 0.5;
     causal_event_count := 0 |}.

Definition set_level (b : AttentionBattery) (l : R) : AttentionBattery :=
  {| level := l; capacity := capacity b; last_decay := last_decay b;
     leak_rate := leak_rate b; causal_event_count := causal_event_count b |}.

(** [apply_decay]: [now.duration_since(last_decay)] is [Ok] exactly when
    [last_decay <= now]; otherwise nothing changes. *)
Definition apply_decay (now : R) (b : AttentionBattery) : AttentionBattery :=
  if Rle_dec (last_decay b) now then
    let decay := (now - last_decay b) * leak_rate b in
    {| level := Rmax (level b - decay) 0; capacity := capacity b;
       last_decay := now; leak_rate := leak_rate b;
       causal_event_count := causal_event_count b |}
  else b.

(** [charge] (v1.0 legacy): [duration] is [duration.as_secs_f64()];
    [hardware_events.saturating_sub(..)] is truncated subtraction on
    [nat]. *)
Definition charge (now motor_entropy duration : R)
    (hardware_events keyboard_hits : nat) (b : AttentionBattery)
    : AttentionBattery :=
  let b := apply_decay now b in
  let events_delta := (hardware_events - causal_event_count b)%nat in
  if Nat.eqb events_delta 0 then b
  else
    let mouse_charge :=
      Rmin (motor_entropy * duration * 5) (INR events_delta * 0.1) in
    let keyboard_charge := Rmin (INR keyboard_hits * 0.5) 20 in
    {| level := Rmin (level b + mouse_charge + keyboard_charge) (capacity b);
       capacity := capacity b; last_decay := last_decay b;
       leak_rate := leak_rate b; causal_event_count := hardware_events |}.

(** [charge_focus] (v2.0): [focus_duration] is [as_secs_f64()]. *)
Definition charge_focus (now focus_duration : R)
    (edit_burst_count navigation_events : nat) (b : AttentionBattery)
    : AttentionBattery :=
  let b := apply_decay now b in
  let focus_charge := (focus_duration / 60) * 10 in
  let edit_bonus := sqrt (INR edit_burst_count) * 5 in
  let nav_bonus := INR navigation_events * 2 in
  let total_charge := focus_charge + edit_bonus + nav_bonus in
  set_level b (Rmin (level b + total_charge) (capacity b)).

(** [consume]: returns the [bool] result and the updated battery. *)
Definition consume (now cost : R) (b : AttentionBattery)
    : bool * AttentionBattery :=
  let b := apply_decay now b in
  if Rle_dec cost (level b) then (true, set_level b (level b - cost))
  else (false, b).

(** Sequences of battery operations, each with the clock reading at
    which it runs. *)
Inductive BatteryOp :=
| OpCharge (now motor_entropy duration : R) (hardware_events keyboard_hits : nat)
| OpChargeFocus (now focus_duration : R) (edit_burst_count navigation_events : nat)
| OpConsume (now cost : R).

Definition step (op : BatteryOp) (b : AttentionBattery) : AttentionBattery :=
  match op with
  | OpCharge now me d hw kb => charge now me d hw kb b
  | OpChargeFocus now fd eb nav => charge_focus now fd eb nav b
  | OpConsume now cost => snd (consume now cost b)
  end.

(** The states after each operation. *)
Fixpoint trace (b : AttentionBattery) (ops : list BatteryOp)
    : list AttentionBattery :=
  match ops with
  | [] => []
  | op :: ops' => let b' := step op b in b' :: trace b' ops'
  end.

(** Non-negative inputs: [Duration] values and [usize] counts are
    non-negative by type; the [f64] arguments are required to be. *)
Definition op_inputs_ok (op : BatteryOp) : Prop :=
  match op with
  | OpCharge _ me d _ _ => 0 <= me /\ 0 <= d
  | OpChargeFocus _ fd _ _ => 0 <= fd
  | OpConsume _ cost => 0 <= cost
  end.

Definition bounded (b : AttentionBattery) : Prop :=
  0 <= level b <= capacity b /\ capacity b = 100.

(** The invariant carried along operation sequences: the level is in
    bounds and the leak rate is the constructor's. *)
Definition battery_inv (b : AttentionBattery) : Prop :=
  bounded b /\ leak_rate b = 0.5.

End Battery.

(* ================================================================= *)
(** ** The [GetTicket] handler (cliff-watch-daemon/src/ipc.rs, 164-187) *)
(* ================================================================= *)

Module Ticket.
Import Battery.
Local Open Scope R_scope.

(** [Response::Ticket]; the human-readable [message] is not modelled. *)
Record TicketResponse := mkTicket {
  success : bool;
  signature : option (list Byte.byte)
}.

Section Handler.
  (** [format!("VALID:cost={:.2}:ts={}", cost, uptime_secs)] and
      [crypto::sign_data] with the daemon key (an Ed25519 signature, whose
      [Result] is always [Ok]) are left abstract. *)
Variable format_payload : R -> nat -> string.
Variable sign_data : string -> list Byte.byte.

Definition get_ticket (now : R) (uptime_secs : nat) (difficulty_factor cost : R)
      (battery : AttentionBattery) : TicketResponse * AttentionBattery :=
    let adjusted_cost := cost * difficulty_factor in
    match consume now adjusted_cost battery with
    | (true, b) =>
        let message := format_payload cost uptime_secs in
        (mkTicket true (Some (sign_data message)), b)
    | (false, b) => (mkTicket false None, b)
    end.
End Handler.

End Ticket.

(* ================================================================= *)
(** ** FileMonitor: debouncer and path filter (monitor.rs, 29-426) *)
(* ================================================================= *)

Module Monitor.
Local Open Scope Z_scope.

Inductive EditKind := Create | Modify | Delete.

Definition EditKind_eqb (a b : EditKind) : bool :=
  match a, b with
  | Create, Create | Modify, Modify | Delete, Delete => true
  | _, _ => false
  end.

(** A normalized [PathBuf], as the list of its [Normal] components; two
    [PathBuf]s are equal (and hash equally) iff their components are. *)
Abbreviation PathBuf := (list string).

Record RawEvent := mkRaw {
  rel_path : PathBuf;
  timestamp_us : Z;            (* u128 *)
  kind : EditKind
}.

Definition u128_max : Z := 2 ^ 128 - 1.
Definition u64_modulus : Z := 2 ^ 64.

(** [u128::saturating_sub] and [u128::saturating_mul] on values in
    [0, u128_max]. *)
Definition sat_sub (a b : Z) : Z := if a <? b then 0 else a - b.
Definition sat_mul (a b : Z) : Z := Z.min (a * b) u128_max.

Record Debouncer := mkDebouncer {
  window_us : Z;
  last_emit_us : gmap PathBuf Z;
  seen : Z;                    (* u64 *)
  gc_every : Z
}.

(** [Debouncer::new(window)], with [window.as_micros()] given directly. *)
Definition new (window_us : Z) : Debouncer :=
  {| window_us := window_us; last_emit_us := ∅; seen := 0; gc_every := 4096 |}.

(** [Debouncer::should_emit]: the decision and the updated debouncer.
    [self.seen += 1] wraps at [2^64]. *)
Definition should_emit (d : Debouncer) (path : PathBuf) (kind : EditKind)
    (ts_us : Z) : bool * Debouncer :=
  if EditKind_eqb kind Delete then (true, d)
  else
    let seen' := (seen d + 1) mod u64_modulus in
    let allow :=
      match last_emit_us d !! path with
      | Some prev => negb (sat_sub ts_us prev <? window_us d)
      | None => true
      end in
    let m := if allow then <[path := ts_us]> (last_emit_us d) else last_emit_us d in
    let m :=
      if seen' mod gc_every d =? 0 then
        let cutoff := sat_sub ts_us (sat_mul (window_us d) 16) in
        filter (fun kt : PathBuf * Z => cutoff <= kt.2) m
      else m in
    (allow, {| window_us := window_us d; last_emit_us := m; seen := seen';
               gc_every := gc_every d |}).

(** The consumer loop of [FileMonitor::run] (and of [drain_gracefully])
    over the raw queue: each raw event goes through the debouncer and, when
    allowed, is handed to [try_emit]. Returns the events handed downstream
    and the final debouncer. *)
Fixpoint debounce_run (d : Debouncer) (evs : list RawEvent)
    : list RawEvent * Debouncer :=
  match evs with
  | [] => ([], d)
  | e :: evs' =>
      let (ok, d1) := should_emit d (rel_path e) (kind e) (timestamp_us e) in
      let (out, d2) := debounce_run d1 evs' in
      ((if ok then e :: out else out), d2)
  end.

(** The same loop, each raw event paired with the debouncer's decision. *)
Fixpoint debounce_decisions (d : Debouncer) (evs : list RawEvent)
    : list (RawEvent * bool) :=
  match evs with
  | [] => []
  | e :: evs' =>
      let (ok, d1) := should_emit d (rel_path e) (kind e) (timestamp_us e) in
      (e, ok) :: debounce_decisions d1 evs'
  end.

Definition is_not_delete (e : RawEvent) : bool :=
  negb (EditKind_eqb (kind e) Delete).

(** [std::path::Component] of a relative path. *)
Inductive Component :=
| CurDir
| ParentDir
| Normal (s : string)
| RootDir.

(** [normalize_rel]: lexical normalization; [out.pop()] on an empty
    vector does nothing. *)
Definition normalize_rel (p : list Component) : PathBuf :=
  rev (fold_left (fun out c =>
         match c with
         | CurDir => out
         | ParentDir => tail out
         | Normal s => s :: out
         | RootDir => out
         end) p []).

(** [rsplit_file_at_dot] of the Rust standard library on a file name, as
    the pair [(before, after)] around the last ['.']. *)
Fixpoint split_last_dot_rev (rs : list Ascii.ascii) (after : list Ascii.ascii)
    : option (list Ascii.ascii * list Ascii.ascii) :=
  match rs with
  | [] => None
  | c :: rs' =>
      if Ascii.eqb c "."%char then Some (rev rs', after)
      else split_last_dot_rev rs' (c :: after)
  end.

(** [Path::extension]: the part of the file name after the last dot;
    none for [".."], for a name without a dot, and for a name whose only
    dot is its first character. *)
Definition file_extension (name : string) : option string :=
  if String.eqb name ".." then None
  else
    match split_last_dot_rev (rev (String.list_ascii_of_string name)) [] with
    | None => None
    | Some ([], _) => None
    | Some (_, after) => Some (String.string_of_list_ascii after)
    end.

(** [Path::file_name] of a normalized path is its last component. *)
Definition extension (p : PathBuf) : option string :=
  match last p with
  | Some name => file_extension name
  | None => None
  end.

(** [should_ignore]. *)
Definition should_ignore (rel : PathBuf) (ignore_top ignore_ext : gset string)
    : bool :=
  match rel with
  | first :: _ => if bool_decide (first ∈ ignore_top) then true else
                  match extension rel with
                  | Some ext => bool_decide (ext ∈ ignore_ext)
                  | None => false
                  end
  | [] => false
  end.

Record MonitorConfig := mkConfig {
  debounce_window_us : Z;
  raw_queue_capacity : Z;
  ignore_top_level_dirs : gset string;
  ignore_extensions : gset string;
  graceful_drain_max_ms : Z;
  graceful_drain_max_events : Z
}.

(** [MonitorConfig::new] (the watch root is not modelled). *)
Definition default_config : MonitorConfig :=
  {| debounce_window_us := 120000;
     raw_queue_capacity := 2048;
     ignore_top_level_dirs := list_to_set [".git"; "target"; "node_modules"];
     ignore_extensions := list_to_set ["log"];
     graceful_drain_max_ms := 250;
     graceful_drain_max_events := 10000 |}.

(** The watcher callback for one path of a notify event, already made
    relative to the watch root, stamped with [now_us()]. *)
Definition callback (cfg : MonitorConfig) (rel : list Component) (ts : Z)
    (k : EditKind) : option RawEvent :=
  let rel_norm := normalize_rel rel in
  if should_ignore rel_norm (ignore_top_level_dirs cfg) (ignore_extensions cfg)
  then None
  else Some (mkRaw rel_norm ts k).

(** The whole pipeline without overflow: callback filter, raw queue,
    debouncer. *)
Definition monitor_pipeline (cfg : MonitorConfig)
    (inputs : list (list Component * Z * EditKind)) : list RawEvent :=
  fst (debounce_run (new (debounce_window_us cfg))
         (omap (fun '(rel, ts, k) => callback cfg rel ts k) inputs)).


(** * Claims about the debouncer, stated over the definitions above *)

(** Two downstream events are separated when, if they are Create/Modify
    events on the same path, their timestamps are not within the window
    of each other. *)
Definition separated (w : Z) (a b : RawEvent) : Prop :=
  rel_path a = rel_path b -> kind a <> Delete -> kind b <> Delete ->
  ~ (Z.abs (timestamp_us b - timestamp_us a) < w).

(** The debounce semantics of the spec for a window [w] and a sequence of
    raw events: no Delete is suppressed, and no two Create/Modify events
    on one path within the window of each other both reach downstream. *)
Definition debounce_semantics (w : Z) (evs : list RawEvent) : Prop :=
  (forall e ok, In (e, ok) (debounce_decisions (new w) evs) ->
                kind e = Delete -> ok = true) /\
  ForallOrdPairs (separated w) (fst (debounce_run (new w) evs)).

(** The invariant of a run: every table entry is a past timestamp, and
    every Create/Modify event already sent downstream is either covered
    by its path's entry, or at least a window older than the present. *)
Definition debounce_inv (w : Z) (d : Debouncer) (H : list RawEvent) (tmax : Z) : Prop :=
  window_us d = w /\ 0 <= tmax /\
  (forall q v, last_emit_us d !! q = Some v -> 0 <= v <= tmax) /\
  (forall a, In a H -> kind a <> Delete ->
     timestamp_us a <= tmax /\
     ((exists v, last_emit_us d !! rel_path a = Some v /\ timestamp_us a <= v)
      \/ timestamp_us a + w <= tmax)).

Definition cex_t0 : Z := 1000000000.

(** A path [p] emitted at [t0]; then 4095 Modify events on [q] stamped
    more than 16 windows later (the 4096th observation triggers the
    eviction of [p]'s entry); then the wall clock steps back and [p] is
    modified 1 microsecond after its first event. *)
Definition cex_events : list RawEvent :=
  [mkRaw ["p"] cex_t0 Modify] ++
  repeat (mkRaw ["q"] (cex_t0 + 16 * 120000 + 10) Modify) 4095 ++
  [mkRaw ["p"] (cex_t0 + 1) Modify].

(** Scenario S4 of the spec: Create, Modify 50 ms later, Delete 10 ms
    later, window 120 ms. *)
Definition s4_events : list RawEvent :=
  [mkRaw ["x"] 0 Create; mkRaw ["x"] 50000 Modify; mkRaw ["x"] 60000 Delete].


(** Auxiliary reference model for the proofs: the decision rule of
    [should_emit] on the table alone, without the periodic eviction. *)
Definition ideal_should_emit (w : Z) (m : gmap PathBuf Z) (e : RawEvent)
    : bool * gmap PathBuf Z :=
  if EditKind_eqb (kind e) Delete then (true, m)
  else
    let allow :=
      match m !! rel_path e with
      | Some prev => negb (sat_sub (timestamp_us e) prev <? w)
      | None => true
      end in
    (allow, if allow then <[rel_path e := timestamp_us e]> m else m).

Fixpoint ideal_decisions (w : Z) (m : gmap PathBuf Z) (evs : list RawEvent)
    : list (RawEvent * bool) :=
  match evs with
  | [] => []
  | e :: evs' =>
      let (ok, m1) := ideal_should_emit w m e in
      (e, ok) :: ideal_decisions w m1 evs'
  end.

(** Whether an event concerns the path [p]. *)
Definition on_path (p : PathBuf) (e : RawEvent) : bool :=
  bool_decide (rel_path e = p).
End Monitor.

(* ================================================================= *)
(** ** Interval statistics (stats.rs, 50-87) *)
(* ================================================================= *)

Module Stats.
Local Open Scope R_scope.

Definition Rltb (a b : R) : bool := if Rlt_dec a b then true else false.

(** [times.windows(2)]. *)
Fixpoint windows2 (l : list R) : list (R * R) :=
  match l with
  | a :: ((b :: _) as l') => (a, b) :: windows2 l'
  | _ => []
  end.

(** [iter().sum::<f64>()]. *)
Definition sum (l : list R) : R := fold_left Rplus l 0.

(** [get_intervals]: absolute consecutive differences above [1e-10]. *)
Definition get_intervals (times : list R) : list R :=
  List.filter (fun x => Rltb 1e-10 x)
    (map (fun w => Rabs (snd w - fst w)) (windows2 times)).

(** [calculate_std_dev] (population standard deviation). *)
Definition calculate_std_dev (data : list R) (mean : R) : R :=
  let variance :=
    sum (map (fun value => let diff := mean - value in diff * diff) data)
      / INR (List.length data) in
  sqrt variance.

(** [is_synthetic_pattern]. *)
Definition is_synthetic_pattern (times : list R) : bool :=
  let intervals := get_intervals times in
  if Nat.ltb (List.length intervals) 5 then false
  else
    let mean := sum intervals / INR (List.length intervals) in
    let std_dev := calculate_std_dev intervals mean in
    if Rltb mean 1e-10 then true
    else
      let cv := std_dev / mean in
      Rltb cv 0.15.


(** [f64::clamp(lo, hi)] with constant bounds [lo <= hi]. *)
Definition fclamp (x lo hi : R) : R :=
  if Rlt_dec x lo then lo else if Rlt_dec hi x then hi else x.

(** [calculate_burstiness] (stats.rs, 8-26). *)
Definition calculate_burstiness (times : list R) : R :=
  if Nat.ltb (List.length times) 2 then 0
  else
    let intervals := get_intervals times in
    match intervals with
    | [] => 0
    | _ :: _ =>
        let mean := sum intervals / INR (List.length intervals) in
        let std_dev := calculate_std_dev intervals mean in
        if Rltb mean 1e-10 || Rltb std_dev 1e-10 then -1
        else (std_dev - mean) / (std_dev + mean)
    end.

(** [estimate_pareto_alpha] (stats.rs, 31-48). On the (non-empty)
    interval list, [fold(f64::INFINITY, |a, &b| a.min(b))] is the fold of
    [min] started from the first interval. *)
Definition estimate_pareto_alpha (times : list R) : R :=
  let intervals := get_intervals times in
  if Nat.ltb (List.length intervals) 5 then 0
  else
    match intervals with
    | [] => 0
    | x0 :: rest =>
        let min_x := fold_left Rmin rest x0 in
        if Rltb min_x 1e-10 then 0
        else
          let sum_log := sum (map (fun x => ln (x / min_x)) intervals) in
          if Rltb sum_log 1e-10 then 0
          else INR (List.length intervals) / sum_log
    end.

(** [calculate_human_score] (stats.rs, 117-146). *)
Definition calculate_human_score (burstiness ncd focus_mins : R)
    (nav_events : nat) (is_synthetic : bool) : R :=
  let norm_burstiness := (burstiness + 1) / 2 in
  let norm_ncd := fclamp ncd 0 1 in
  let focus_score := Rmin (focus_mins * 0.1 + INR nav_events * 0.02) 1 in
  let score := 0.4 * focus_score + 0.4 * norm_burstiness + 0.2 * norm_ncd in
  if is_synthetic then score * 0.5 else score.

(** [calculate_coupling_score] (stats.rs, 171-182). *)
Definition calculate_coupling_score (code_complexity motor_entropy : R) : R :=
  if Rltb code_complexity 0.1 then 1
  else
    let diff := Rabs (code_complexity - motor_entropy) in
    fclamp (1 - diff) 0 1.

(** [calculate_dynamic_threshold] (stats.rs, 185-195). *)
Definition calculate_dynamic_threshold (historical_scores : list R)
    (base_threshold : R) : R :=
  match historical_scores with
  | [] => base_threshold
  | _ :: _ =>
      let avg_score := sum historical_scores / INR (List.length historical_scores) in
      avg_score * 0.9
  end.
End Stats.

(* ================================================================= *)
(** ** FocusTracker (focus_session.rs) *)
(* ================================================================= *)

Module Focus.
Local Open Scope R_scope.

(** [i64] addition as in a release build (two's-complement wrap). *)
Definition wrap_i64 (x : Z) : Z :=
  ((x + 2 ^ 63) mod 2 ^ 64 - 2 ^ 63)%Z.

Module Metrics.
Record FocusMetrics := mkMetrics {
    total_focus_mins : R;
    edit_burst_count : nat;
    chars_edited_net : Z;
    unique_files : nat;
    navigation_events : nat;
    is_synthetic : bool
  }.

  (** [FocusMetrics::default()]. *)
Definition default_metrics : FocusMetrics :=
    {| total_focus_mins := 0; edit_burst_count := 0; chars_edited_net := 0;
       unique_files := 0; navigation_events := 0; is_synthetic := false |}.
End Metrics.
Import Metrics.

(** [PathBuf::from(&str)] as the tracker's maps see it. [PathBuf]'s
    [Eq] and [Hash] compare [components()] (Unix): a leading ['/'] is the
    root, and the pieces between separators lose the empty ones (repeated
    or trailing ['/']) and the ["."] ones, except a ["."] that starts a
    relative path. [pathbuf_from] renders the components as a string
    (root, then the components joined by ['/']), so two [PathBuf]s are
    equal exactly when their renderings are, and the tracker's maps and
    sets are keyed by it. *)
Fixpoint split_sep (cur : list Ascii.ascii) (l : list Ascii.ascii)
    : list (list Ascii.ascii) :=
  match l with
  | [] => [rev cur]
  | c :: l' =>
      if Ascii.eqb c "/"%char then rev cur :: split_sep [] l'
      else split_sep (c :: cur) l'
  end.

Definition is_cur_dir (p : list Ascii.ascii) : bool :=
  match p with [c] => Ascii.eqb c "."%char | _ => false end.

Definition is_normal (p : list Ascii.ascii) : bool :=
  match p with [] => false | _ :: _ => negb (is_cur_dir p) end.

Definition has_root (l : list Ascii.ascii) : bool :=
  match l with c :: _ => Ascii.eqb c "/"%char | [] => false end.

(** [Path::components]: the root flag and the remaining components. *)
Definition components (l : list Ascii.ascii) : bool * list (list Ascii.ascii) :=
  let pieces := split_sep [] l in
  if has_root l then (true, List.filter is_normal pieces)
  else match pieces with
       | p :: rest =>
           if is_cur_dir p then (false, p :: List.filter is_normal rest)
           else (false, List.filter is_normal pieces)
       | [] => (false, [])
       end.

Fixpoint join_sep (ps : list (list Ascii.ascii)) : list Ascii.ascii :=
  match ps with
  | [] => []
  | [p] => p
  | p :: ps' => p ++ "/"%char :: join_sep ps'
  end.

Definition pathbuf_from (s : string) : string :=
  let (root, comps) := components (String.list_ascii_of_string s) in
  String.string_of_list_ascii
    ((if root then ["/"%char] else []) ++ join_sep comps).

Record FocusSession := mkSession {
  file_path : option string;
  started_at : R;
  edit_bursts : nat;
  chars_delta : Z;
  nav_events : nat
}.

Definition session_new (file_path : option string) (now : R) : FocusSession :=
  {| file_path := file_path; started_at := now; edit_bursts := 0;
     chars_delta := 0; nav_events := 0 |}.

Definition record_edit (chars : Z) (s : FocusSession) : FocusSession :=
  {| file_path := file_path s; started_at := started_at s;
     edit_bursts := S (edit_bursts s);
     chars_delta := wrap_i64 (chars_delta s + chars); nav_events := nav_events s |}.

Definition record_navigation (s : FocusSession) : FocusSession :=
  {| file_path := file_path s; started_at := started_at s;
     edit_bursts := edit_bursts s; chars_delta := chars_delta s;
     nav_events := S (nav_events s) |}.

(** [duration]: [duration_since(started_at).unwrap_or(ZERO)]. *)
Definition duration (now : R) (s : FocusSession) : R :=
  if Rle_dec (started_at s) now then now - started_at s else 0.

Definition focus_minutes (now : R) (s : FocusSession) : R :=
  duration now s / 60.

Record FocusTracker := mkTracker {
  current_session : option FocusSession;
  unique_files_seen : gset string;       (* [unique_files: HashMap<PathBuf, ()>] *)
  cumulative : FocusMetrics;
  last_heartbeat : option R;
  nav_timestamps : list R;
  file_focus_accum : gmap string R;
  file_nav_accum : gmap string nat;
  productive_files : gset string
}.

Definition tracker_new : FocusTracker :=
  {| current_session := None; unique_files_seen := ∅; cumulative := default_metrics;
     last_heartbeat := None; nav_timestamps := []; file_focus_accum := ∅;
     file_nav_accum := ∅; productive_files := ∅ |}.

Definition set_session (t : FocusTracker) (s : option FocusSession) : FocusTracker :=
  {| current_session := s; unique_files_seen := unique_files_seen t;
     cumulative := cumulative t; last_heartbeat := last_heartbeat t;
     nav_timestamps := nav_timestamps t; file_focus_accum := file_focus_accum t;
     file_nav_accum := file_nav_accum t; productive_files := productive_files t |}.

Definition set_unique (t : FocusTracker) (u : gset string) : FocusTracker :=
  {| current_session := current_session t; unique_files_seen := u;
     cumulative := cumulative t; last_heartbeat := last_heartbeat t;
     nav_timestamps := nav_timestamps t; file_focus_accum := file_focus_accum t;
     file_nav_accum := file_nav_accum t; productive_files := productive_files t |}.

Definition set_cumulative (t : FocusTracker) (c : FocusMetrics) : FocusTracker :=
  {| current_session := current_session t; unique_files_seen := unique_files_seen t;
     cumulative := c; last_heartbeat := last_heartbeat t;
     nav_timestamps := nav_timestamps t; file_focus_accum := file_focus_accum t;
     file_nav_accum := file_nav_accum t; productive_files := productive_files t |}.

Definition metrics_add_focus (c : FocusMetrics) (mins : R) : FocusMetrics :=
  {| total_focus_mins := total_focus_mins c + mins;
     edit_burst_count := edit_burst_count c; chars_edited_net := chars_edited_net c;
     unique_files := unique_files c; navigation_events := navigation_events c;
     is_synthetic := is_synthetic c |}.

(** [finalize_current_session]. *)
Definition finalize_current_session (now : R) (t : FocusTracker) : FocusTracker :=
  match current_session t with
  | None => t
  | Some session =>
      let mins := focus_minutes now session in
      let accum :=
        match file_path session with
        | Some path =>
            <[path := default 0 (file_focus_accum t !! path) + mins]> (file_focus_accum t)
        | None => file_focus_accum t
        end in
      {| current_session := None; unique_files_seen := unique_files_seen t;
         cumulative := metrics_add_focus (cumulative t) mins;
         last_heartbeat := last_heartbeat t; nav_timestamps := nav_timestamps t;
         file_focus_accum := accum; file_nav_accum := file_nav_accum t;
         productive_files := productive_files t |}
  end.

(** [focus_gained]. *)
Definition focus_gained (now : R) (file_path : option string) (t : FocusTracker)
    : FocusTracker :=
  let file_path := option_map pathbuf_from file_path in
  let t := finalize_current_session now t in
  let t := match file_path with
           | Some path => set_unique t ({[path]} ∪ unique_files_seen t)
           | None => t
           end in
  set_session t (Some (session_new file_path now)).

(** [focus_lost]. *)
Definition focus_lost (now : R) (t : FocusTracker) : FocusTracker :=
  finalize_current_session now t.

(** [edit_burst]. *)
Definition edit_burst (now : R) (path : string) (chars_delta : Z) (t : FocusTracker)
    : FocusTracker :=
  let path := pathbuf_from path in
  let t := set_unique t ({[path]} ∪ unique_files_seen t) in
  let t := match current_session t with
           | Some session => set_session t (Some (record_edit chars_delta session))
           | None => set_session t (Some (record_edit chars_delta (session_new (Some path) now)))
           end in
  let c := cumulative t in
  set_cumulative t
    {| total_focus_mins := total_focus_mins c;
       edit_burst_count := S (edit_burst_count c);
       chars_edited_net := wrap_i64 (chars_edited_net c + chars_delta);
       unique_files := unique_files c; navigation_events := navigation_events c;
       is_synthetic := is_synthetic c |}.

(** [navigation]. *)
Definition navigation (path : string) (timestamp_ms : nat) (t : FocusTracker)
    : FocusTracker :=
  let path := pathbuf_from path in
  let c := cumulative t in
  let ts := nav_timestamps t ++ [INR timestamp_ms] in
  {| current_session := option_map record_navigation (current_session t);
     unique_files_seen := {[path]} ∪ unique_files_seen t;
     cumulative :=
       {| total_focus_mins := total_focus_mins c;
          edit_burst_count := edit_burst_count c;
          chars_edited_net := chars_edited_net c; unique_files := unique_files c;
          navigation_events := S (navigation_events c);
          is_synthetic := is_synthetic c |};
     last_heartbeat := last_heartbeat t;
     nav_timestamps := if Nat.ltb 100 (List.length ts) then tail ts else ts;
     file_focus_accum := file_focus_accum t;
     file_nav_accum := <[path := S (default 0%nat (file_nav_accum t !! path))]> (file_nav_accum t);
     productive_files := productive_files t |}.

(** [heartbeat]. *)
Definition heartbeat (now : R) (t : FocusTracker) : FocusTracker :=
  {| current_session := current_session t; unique_files_seen := unique_files_seen t;
     cumulative := cumulative t; last_heartbeat := Some now;
     nav_timestamps := nav_timestamps t; file_focus_accum := file_focus_accum t;
     file_nav_accum := file_nav_accum t; productive_files := productive_files t |}.

(** [mark_as_productive]. *)
Definition mark_as_productive (path : string) (t : FocusTracker) : FocusTracker :=
  {| current_session := current_session t; unique_files_seen := unique_files_seen t;
     cumulative := cumulative t; last_heartbeat := last_heartbeat t;
     nav_timestamps := nav_timestamps t; file_focus_accum := file_focus_accum t;
     file_nav_accum := file_nav_accum t;
     productive_files := {[pathbuf_from path]} ∪ productive_files t |}.

(** [reset]. *)
Definition reset (t : FocusTracker) : FocusTracker :=
  {| current_session := None; unique_files_seen := ∅; cumulative := default_metrics;
     last_heartbeat := None; nav_timestamps := nav_timestamps t;
     file_focus_accum := file_focus_accum t; file_nav_accum := file_nav_accum t;
     productive_files := productive_files t |}.

(** [get_metrics]: only productive files contribute focus minutes and
    navigation events. *)
Definition get_metrics (now : R) (t : FocusTracker) : FocusMetrics :=
  let P := productive_files t in
  let focus_accum :=
    map_fold (fun path mins acc =>
                if bool_decide (path ∈ P) then acc + mins else acc)
             0 (file_focus_accum t) in
  let focus_total :=
    match current_session t with
    | Some session =>
        match file_path session with
        | Some path =>
            if bool_decide (path ∈ P) then focus_accum + focus_minutes now session
            else focus_accum
        | None => focus_accum
        end
    | None => focus_accum
    end in
  let nav_total :=
    map_fold (fun path nav acc =>
                if bool_decide (path ∈ P) then (acc + nav)%nat else acc)
             0%nat (file_nav_accum t) in
  {| total_focus_mins := focus_total;
     edit_burst_count := edit_burst_count (cumulative t);
     chars_edited_net := chars_edited_net (cumulative t);
     unique_files := size P;
     navigation_events := nav_total;
     is_synthetic := Stats.is_synthetic_pattern (nav_timestamps t) |}.

(** The tracker transitions applied by the correlation core. *)
Inductive TrackerOp :=
| OpFocusGained (now : R) (file_path : option string)
| OpFocusLost (now : R)
| OpEditBurst (now : R) (path : string) (chars_delta : Z)
| OpNavigation (path : string) (timestamp_ms : nat)
| OpHeartbeat (now : R)
| OpMarkProductive (path : string)
| OpReset.

Definition tracker_step (op : TrackerOp) (t : FocusTracker) : FocusTracker :=
  match op with
  | OpFocusGained now fp => focus_gained now fp t
  | OpFocusLost now => focus_lost now t
  | OpEditBurst now p d => edit_burst now p d t
  | OpNavigation p ts => navigation p ts t
  | OpHeartbeat now => heartbeat now t
  | OpMarkProductive p => mark_as_productive p t
  | OpReset => reset t
  end.

Definition run_tracker (ops : list TrackerOp) : FocusTracker :=
  fold_left (fun t op => tracker_step op t) ops tracker_new.


(** Observations on operation sequences, used to state properties of the
    tracker. *)
Definition run_from (t : FocusTracker) (ops : list TrackerOp) : FocusTracker :=
  fold_left (fun t op => tracker_step op t) ops t.

(** The [timestamp_ms] of every [navigation] call, in call order. *)
Definition nav_stamps (ops : list TrackerOp) : list R :=
  flat_map (fun op => match op with OpNavigation _ ts => [INR ts] | _ => [] end) ops.

(** The paths passed to [navigation] and to [mark_as_productive]. *)
Definition navigated_paths (ops : list TrackerOp) : list string :=
  flat_map (fun op => match op with OpNavigation p _ => [p] | _ => [] end) ops.

Definition marked_paths (ops : list TrackerOp) : list string :=
  flat_map (fun op => match op with OpMarkProductive p => [p] | _ => [] end) ops.

(** The [chars_delta] of every [edit_burst] call, in call order. *)
Definition edit_deltas (ops : list TrackerOp) : list Z :=
  flat_map (fun op => match op with OpEditBurst _ _ d => [d] | _ => [] end) ops.

Definition is_reset (op : TrackerOp) : bool :=
  match op with OpReset => true | _ => false end.

(** The last [n] elements of a list (all of them if there are fewer). *)
Definition lastn {A} (n : nat) (l : list A) : list A :=
  skipn (List.length l - n) l.
End Focus.

(* ================================================================= *)
(** ** Complexity engine (complexity.rs) *)
(* ================================================================= *)

(** A [&str] is modelled by its UTF-8 bytes ([String.string], one
    [ascii] per byte): [as_bytes] is the identity on them, [str::lines]
    splits at the byte ['\n'], and [str::trim] removes the UTF-8
    encodings of the [White_Space] characters at both ends. The zstd encoder and the
    [syn] parser are external libraries: they are parameters of the
    section below, so every property proved holds for whatever they
    return. *)

Module Complexity.
Local Open Scope R_scope.

(** The kinds of top-level items of a parsed file that the code
    distinguishes. *)
Inductive Item := ItemFn | ItemStruct | ItemEnum | ItemImpl | ItemOther.

Definition SEMANTIC_ITEM_WEIGHT : R := 10.
Definition MAX_SEMANTIC_SCORE : R := 50.
Definition NCD_MULTIPLIER : R := 50.
Definition SPAM_THRESHOLD : R := 10.

Definition as_bytes (s : string) : list Byte.byte :=
  map Ascii.byte_of_ascii (String.list_ascii_of_string s).

(** [char::is_whitespace] (Unicode [White_Space]) of a character of one
    byte: 9-13 and 32. *)
Definition is_whitespace (c : Ascii.ascii) : bool :=
  let n := Ascii.nat_of_ascii c in
  (Nat.leb 9 n && Nat.leb n 13) || Nat.eqb n 32.

(** The two-byte UTF-8 encodings of [White_Space] characters: U+0085 and
    U+00A0. *)
Definition is_whitespace2 (c0 c1 : Ascii.ascii) : bool :=
  let n0 := Ascii.nat_of_ascii c0 in
  let n1 := Ascii.nat_of_ascii c1 in
  Nat.eqb n0 194 && (Nat.eqb n1 133 || Nat.eqb n1 160).

(** The three-byte UTF-8 encodings of [White_Space] characters: U+1680,
    U+2000-U+200A, U+2028, U+2029, U+202F, U+205F and U+3000. *)
Definition is_whitespace3 (c0 c1 c2 : Ascii.ascii) : bool :=
  let n0 := Ascii.nat_of_ascii c0 in
  let n1 := Ascii.nat_of_ascii c1 in
  let n2 := Ascii.nat_of_ascii c2 in
  (Nat.eqb n0 225 && Nat.eqb n1 154 && Nat.eqb n2 128) ||
  (Nat.eqb n0 226 && Nat.eqb n1 128 &&
     ((Nat.leb 128 n2 && Nat.leb n2 138) || Nat.eqb n2 168 || Nat.eqb n2 169 ||
      Nat.eqb n2 175)) ||
  (Nat.eqb n0 226 && Nat.eqb n1 129 && Nat.eqb n2 159) ||
  (Nat.eqb n0 227 && Nat.eqb n1 128 && Nat.eqb n2 128).

(** [trim_start_matches(char::is_whitespace)] on UTF-8 bytes. *)
Fixpoint drop_ws (l : list Ascii.ascii) : list Ascii.ascii :=
  match l with
  | c0 :: r0 =>
      if is_whitespace c0 then drop_ws r0 else
      match r0 with
      | c1 :: r1 =>
          if is_whitespace2 c0 c1 then drop_ws r1 else
          match r1 with
          | c2 :: r2 => if is_whitespace3 c0 c1 c2 then drop_ws r2 else l
          | [] => l
          end
      | [] => l
      end
  | [] => []
  end.

(** [trim_end_matches(char::is_whitespace)] on UTF-8 bytes, read from the
    end (the list is reversed). In valid UTF-8 a character ending in a byte
    below 128 is that byte, and 194, 225, 226, 227 only start characters,
    so matching the last bytes finds exactly the last character. *)
Fixpoint drop_ws_rev (l : list Ascii.ascii) : list Ascii.ascii :=
  match l with
  | c2 :: r2 =>
      if is_whitespace c2 then drop_ws_rev r2 else
      match r2 with
      | c1 :: r1 =>
          if is_whitespace2 c1 c2 then drop_ws_rev r1 else
          match r1 with
          | c0 :: r0 => if is_whitespace3 c0 c1 c2 then drop_ws_rev r0 else l
          | [] => l
          end
      | [] => l
      end
  | [] => []
  end.

(** [str::trim]. *)
Definition trim (l : list Ascii.ascii) : list Ascii.ascii :=
  rev (drop_ws_rev (rev (drop_ws l))).

(** A line ended by ['\n'] loses it and then one trailing ['\r']. *)
Definition strip_cr (l : list Ascii.ascii) : list Ascii.ascii :=
  match rev l with
  | c :: r => if Ascii.eqb c "013"%char then rev r else l
  | [] => l
  end.

Fixpoint lines_aux (cur : list Ascii.ascii) (s : list Ascii.ascii)
    : list (list Ascii.ascii) :=
  match s with
  | [] => match cur with [] => [] | _ :: _ => [rev cur] end
  | c :: s' =>
      if Ascii.eqb c "010"%char then strip_cr (rev cur) :: lines_aux [] s'
      else lines_aux (c :: cur) s'
  end.

(** [str::lines]: [split_inclusive('\n')], each piece losing its line
    ending; the last line needs no ending. *)
Definition lines (s : string) : list (list Ascii.ascii) :=
  lines_aux [] (String.list_ascii_of_string s).

Definition is_counted_item (i : Item) : bool :=
  match i with ItemFn | ItemStruct | ItemEnum | ItemImpl => true | ItemOther => false end.

(** [analyze_generic_complexity]. *)
Definition analyze_generic_complexity (code : string) : R :=
  let non_empty :=
    List.filter (fun l => match trim l with [] => false | _ :: _ => true end) (lines code) in
  let unique_lines : gset string :=
    list_to_set (map (fun l => String.string_of_list_ascii (trim l)) non_empty) in
  let effective_lines :=
    Rmin (INR (List.length non_empty)) (INR (size unique_lines) * 3) in
  Rmin (effective_lines * 2) MAX_SEMANTIC_SCORE.

(** [is_rust_file]: [Path::extension] of the path is ["rs"]. *)
Definition is_rust_file (path : option Monitor.PathBuf) : bool :=
  match path with
  | Some p => match Monitor.extension p with
              | Some e => String.eqb e "rs"
              | None => false
              end
  | None => false
  end.

Section Engine.

(** [zstd::stream::encode_all(data, level)]: [Some] compressed bytes, or
    [None] for an [Err]. *)
Variable encode_all : list Byte.byte -> Z -> option (list Byte.byte).
(** [syn::parse_file]: [Some] top-level items, or [None] for an [Err]. *)
Variable parse_file : string -> option (list Item).

(** [calculate_compression_ratio]. *)
Definition calculate_compression_ratio (code : string) : R :=
  let bytes := as_bytes code in
  match bytes with
  | [] => 0
  | _ :: _ =>
      match encode_all bytes 3 with
      | None => 0.5
      | Some compressed =>
          Rmin (INR (List.length compressed) / INR (List.length bytes)) 1
      end
  end.

(** [analyze_rust_semantics]. *)
Definition analyze_rust_semantics (code : string) : R :=
  match parse_file code with
  | Some items =>
      Rmin (INR (List.length (List.filter is_counted_item items)) * SEMANTIC_ITEM_WEIGHT)
        MAX_SEMANTIC_SCORE
  | None => 0
  end.

(** [estimate_entropic_cost]. *)
Definition estimate_entropic_cost (code : string) (file_path : option Monitor.PathBuf) : R :=
  if String.eqb code "" then 0
  else
    let compression_score := calculate_compression_ratio code * NCD_MULTIPLIER in
    let semantic_score :=
      if is_rust_file file_path then analyze_rust_semantics code
      else analyze_generic_complexity code in
    Rmax (Rmin (compression_score + semantic_score) 100) 1.

(** [is_likely_spam]. *)
Definition is_likely_spam (code : string) : bool :=
  Stats.Rltb (estimate_entropic_cost code None) SPAM_THRESHOLD.

(** [compress_size]. *)
Definition compress_size (data : string) : nat :=
  match encode_all (as_bytes data) 3 with
  | Some v => List.length v
  | None => List.length (as_bytes data)
  end.

(** [calculate_ncd_against_context]; [usize::saturating_sub] is
    truncated subtraction on [nat]. *)
Definition calculate_ncd_against_context (new_code existing_context : string) : R :=
  let c_new := compress_size new_code in
  let c_context := compress_size existing_context in
  let c_combined := compress_size (String.append existing_context new_code) in
  let numerator := INR (c_combined - Nat.min c_context c_new) in
  let denominator := INR (Nat.max c_context c_new) in
  if Req_dec_T denominator 0 then 1
  else Rmin (Rmax (numerator / denominator) 0) 1.

End Engine.

End Complexity.

(* ================================================================= *)
(** ** GitMonitor: the correlation loop (monitor.rs, 543-909) *)
(* ================================================================= *)

(** The monitor's shared cells ([Arc<RwLock<..>>], [AtomicU64]) are the
    fields of one record; each handler is a function on it (lock failures
    are not modelled: every [write()] succeeds). The mouse sentinel
    (mouse_sentinel.rs) is outside this embedding: the result of its
    [analyze()] is an input of [run_analysis]. Likewise the file contents
    read by [tokio::fs::read_to_string] and the repository context
    returned by [get_repo_context_cached] are inputs of
    [handle_file_event]. *)

Module GitMon.
Local Open Scope R_scope.

(** [KinematicMetrics] (mouse_sentinel.rs). *)
Record KinematicMetrics := mkKinematic {
  ldlj : R;
  velocity_entropy : R;
  curvature_entropy : R;
  throughput : R;
  burstiness : R;
  ncd : R;
  is_synthetic : bool
}.

(** [InputEvent]: only its variant is read by [handle_input_event]. *)
Inductive InputEvent := Mouse (x y : R) | Keyboard.

(** The sensor events, with the fields [handle_sensor_event] reads. *)
Inductive SensorEvent :=
| FocusGained (file_path : option string)
| FocusLost
| EditBurst (file_path : string) (chars_delta : Z)
| Navigation (file_path : string) (timestamp_ms : nat)
| Heartbeat
| Disconnect
| Keystroke (file_path : string).

(** [EditEvent] has the fields of the monitor's raw event. *)
Abbreviation EditEvent := Monitor.RawEvent.

Record GitMonitor := mkGitMonitor {
  latest_metrics : option KinematicMetrics;
  latest_coupling : R;
  battery : Battery.AttentionBattery;
  events_captured : nat;
  keyboard_hits : Z;                    (* AtomicU64 *)
  focus_tracker : Focus.FocusTracker;
  score_history : list R;               (* VecDeque, front first *)
  latest_ncd : R
}.

(** [GitMonitor::new]. *)
Definition new (now : R) : GitMonitor :=
  {| latest_metrics := None; latest_coupling := 1;
     battery := Battery.new now; events_captured := 0; keyboard_hits := 0;
     focus_tracker := Focus.tracker_new; score_history := []; latest_ncd := 0.5 |}.

(** [handle_input_event] ([fetch_add] on the [AtomicU64] wraps). *)
Definition handle_input_event (event : InputEvent) (g : GitMonitor) : GitMonitor :=
  {| latest_metrics := latest_metrics g; latest_coupling := latest_coupling g;
     battery := battery g; events_captured := S (events_captured g);
     keyboard_hits :=
       match event with
       | Mouse _ _ => keyboard_hits g
       | Keyboard => ((keyboard_hits g + 1) mod 2 ^ 64)%Z
       end;
     focus_tracker := focus_tracker g; score_history := score_history g;
     latest_ncd := latest_ncd g |}.

(** [handle_sensor_event]. *)
Definition handle_sensor_event (now : R) (event : SensorEvent) (g : GitMonitor)
    : GitMonitor :=
  let t := focus_tracker g in
  let t' :=
    match event with
    | FocusGained fp => Focus.focus_gained now fp t
    | FocusLost => Focus.focus_lost now t
    | EditBurst p d => Focus.edit_burst now p d t
    | Navigation p ts => Focus.navigation p ts t
    | Heartbeat => Focus.heartbeat now t
    | Disconnect => Focus.reset t
    | Keystroke _ => Focus.heartbeat now t
    end in
  {| latest_metrics := latest_metrics g; latest_coupling := latest_coupling g;
     battery := battery g; events_captured := events_captured g;
     keyboard_hits := keyboard_hits g; focus_tracker := t';
     score_history := score_history g; latest_ncd := latest_ncd g |}.

Section Loop.

Variable encode_all : list Byte.byte -> Z -> option (list Byte.byte).
Variable parse_file : string -> option (list Complexity.Item).
(** The [FocusTracker] key of a [PathBuf] (the tracker model keys paths
    by their text). *)
Variable path_key : Monitor.PathBuf -> string.
(** The immutable fields [watch_root], [analysis_interval] (in seconds)
    and [min_entropy]. *)
Variable watch_root : Monitor.PathBuf.
Variable analysis_interval : R.
Variable min_entropy : R.

(** [handle_file_event]. The paste-threshold test only logs. *)
Definition handle_file_event (now : R) (event : EditEvent)
    (content : option string) (repo_context : string) (g : GitMonitor)
    : GitMonitor :=
  if Monitor.EditKind_eqb (Monitor.kind event) Monitor.Delete then g
  else
    let full_path := (watch_root ++ Monitor.rel_path event)%list in
    match content with
    | None => g
    | Some content =>
        let compression_ratio :=
          Complexity.calculate_compression_ratio encode_all content in
        let ncd_novelty :=
          if negb (String.eqb repo_context "") then
            Complexity.calculate_ncd_against_context encode_all content repo_context
          else compression_ratio in
        let ncd' := latest_ncd g * 0.8 + ncd_novelty * 0.2 in
        let entropic_cost :=
          Complexity.estimate_entropic_cost encode_all parse_file content (Some full_path) in
        let motor_entropy :=
          match latest_metrics g with
          | Some m => Rmin (velocity_entropy m / 8) 1
          | None => 0
          end in
        let difficulty_factor := min_entropy / 2.5 in
        let adjusted_cost := entropic_cost * difficulty_factor in
        let (has_energy, battery') := Battery.consume now adjusted_cost (battery g) in
        let coupling := Stats.calculate_coupling_score (entropic_cost / 100) motor_entropy in
        let coupling' := latest_coupling g * 0.7 + coupling * 0.3 in
        let tracker' :=
          if has_energy then Focus.mark_as_productive (path_key full_path) (focus_tracker g)
          else focus_tracker g in
        {| latest_metrics := latest_metrics g; latest_coupling := coupling';
           battery := battery'; events_captured := events_captured g;
           keyboard_hits := keyboard_hits g; focus_tracker := tracker';
           score_history := score_history g; latest_ncd := ncd' |}
    end.

(** [run_analysis], given the result of [mouse_sentinel.analyze()]
    ([None] for an [Err]); both charges read the clock at [now]. *)
Definition run_analysis (now : R) (analysis : option KinematicMetrics)
    (g : GitMonitor) : GitMonitor :=
  match analysis with
  | None => g
  | Some metrics =>
      let events := events_captured g in
      let k_hits := keyboard_hits g in
      let b1 := Battery.charge now (velocity_entropy metrics / 8) analysis_interval
                  events (Z.to_nat k_hits) (battery g) in
      let fm := Focus.get_metrics now (focus_tracker g) in
      let b2 := Battery.charge_focus now (Focus.Metrics.total_focus_mins fm * 60)
                  (Focus.Metrics.edit_burst_count fm)
                  (Focus.Metrics.navigation_events fm) b1 in
      let code_ncd := latest_ncd g in
      let h_score := Stats.calculate_human_score (burstiness metrics) code_ncd 0 events false in
      let history := (score_history g ++ [h_score])%list in
      {| latest_metrics := Some metrics; latest_coupling := latest_coupling g;
         battery := b2; events_captured := events;
         keyboard_hits := 0; focus_tracker := focus_tracker g;
         score_history := if Nat.ltb 50 (List.length history) then tl history else history;
         latest_ncd := latest_ncd g |}
  end.

(** The branches of the [start] loop, each with its clock reading. *)
Inductive GitOp :=
| GInput (event : InputEvent)
| GSensor (now : R) (event : SensorEvent)
| GFile (now : R) (event : EditEvent) (content : option string) (repo_context : string)
| GAnalysis (now : R) (analysis : option KinematicMetrics).

Definition git_step (op : GitOp) (g : GitMonitor) : GitMonitor :=
  match op with
  | GInput ev => handle_input_event ev g
  | GSensor now ev => handle_sensor_event now ev g
  | GFile now ev c ctx => handle_file_event now ev c ctx g
  | GAnalysis now a => run_analysis now a g
  end.

Definition git_run (g : GitMonitor) (ops : list GitOp) : GitMonitor :=
  fold_left (fun g op => git_step op g) ops g.

End Loop.

(** The analyses of a sequence of loop branches. *)
Definition analyses (ops : list GitOp) : list KinematicMetrics :=
  flat_map (fun op => match op with GAnalysis _ (Some m) => [m] | _ => [] end) ops.

End GitMon.

(* ================================================================= *)
(** ** Ticket signing (cliff-watch-core/src/crypto.rs, 21-34, and the
       [GetTicket] handler of cliff-watch-daemon/src/ipc.rs, 164-187) *)
(* ================================================================= *)

(** The Ed25519 primitives of [ed25519_dalek] are external: they are
    parameters of the sections below, and the properties proved about the
    repository's glue assume only what the library guarantees (see
    [TicketFacts]). A [Result<T, String>] is [T + string], [Ok] being
    [inl]. *)

Module TicketCrypto.
Import Battery Ticket.
Local Open Scope R_scope.

Section Crypto.
Context {SigningKey VerifyingKey : Type}.
(** [signing_key.sign(data).to_bytes()]: the bytes of the signature. *)
Variable sign_to_bytes : SigningKey -> list Byte.byte -> list Byte.byte.
(** [verifying_key.verify(data, &Signature::from_bytes(bytes)).is_ok()]
    for a 64-byte [bytes]. *)
Variable verify_from_bytes : VerifyingKey -> list Byte.byte -> list Byte.byte -> bool.

(** [crypto::sign_data]. *)
Definition sign_data (signing_key : SigningKey) (data : list Byte.byte)
    : list Byte.byte + string :=
  inl (sign_to_bytes signing_key data).

(** [crypto::verify_signature]; after the length check the conversion to
    [[u8; 64]] cannot fail. *)
Definition verify_signature (verifying_key : VerifyingKey)
    (data signature : list Byte.byte) : bool + string :=
  if negb (Nat.eqb (List.length signature) 64) then inr "Invalid signature length"%string
  else inl (verify_from_bytes verifying_key data signature).
End Crypto.

(** [Result::ok]. *)
Definition result_ok {A E : Type} (r : A + E) : option A :=
  match r with inl a => Some a | inr _ => None end.

(** [format!("{}", n)] for a [u64]: its decimal digits. *)
Definition format_u64 (n : nat) : string :=
  NilEmpty.string_of_uint (Nat.to_uint n).

(** Every character of the string is ASCII (below 128). *)
Fixpoint all_ascii (s : string) : bool :=
  match s with
  | EmptyString => true
  | String c s' => Nat.ltb (Ascii.nat_of_ascii c) 128 && all_ascii s'
  end.

Section Handler.
Context {SigningKey : Type}.
Variable sign_to_bytes : SigningKey -> list Byte.byte -> list Byte.byte.
(** [format!("{:.2}", cost)]: Rust's float formatting. *)
Variable format_f64_2 : R -> string.

(** [format!("VALID:cost={:.2}:ts={}", cost, uptime_secs)]. *)
Definition ticket_message (cost : R) (uptime_secs : nat) : string :=
  String.append "VALID:cost="
    (String.append (format_f64_2 cost)
       (String.append ":ts=" (format_u64 uptime_secs))).

(** The [GetTicket] handler with the daemon's [signing_key]:
    [sign_data(&signing_key, message.as_bytes()).ok()], where [sign_data]
    always returns [Ok], is [Some] of the signature bytes of
    [message.as_bytes()]; [get_ticket] adds the [Some]. *)
Definition handle_get_ticket (signing_key : SigningKey) (now : R) (uptime_secs : nat)
    (difficulty_factor cost : R) (battery : AttentionBattery)
    : TicketResponse * AttentionBattery :=
  get_ticket ticket_message
    (fun message => sign_to_bytes signing_key (Complexity.as_bytes message))
    now uptime_secs difficulty_factor cost battery.
End Handler.

End TicketCrypto.

(* ================================================================= *)
(** * Properties of the AttentionBattery *)
(* ================================================================= *)

Module BatteryFacts.
Import Battery.
Local Open Scope R_scope.


Lemma Rmin_bounds (x c : R) : 0 <= x -> 0 <= c -> 0 <= Rmin x c <= c.
Proof. intros Hx Hc. unfold Rmin. destruct (Rle_dec x c); lra. Qed.

Lemma new_inv (t0 : R) : battery_inv (new t0).
Proof. unfold battery_inv, bounded, new; simpl. lra. Qed.

Lemma apply_decay_inv (now : R) (b : AttentionBattery) :
  battery_inv b -> battery_inv (apply_decay now b).
Proof.
  unfold battery_inv, bounded, apply_decay. intros [[[H0 H1] Hc] Hl].
  destruct (Rle_dec (last_decay b) now) as [Hle|]; simpl; [|lra].
  rewrite Hl. unfold Rmax.
  destruct (Rle_dec (level b - (now - last_decay b) * 0.5) 0); lra.
Qed.

Lemma apply_decay_level_le (now : R) (b : AttentionBattery) :
  0 <= leak_rate b -> 0 <= level b -> level (apply_decay now b) <= level b.
Proof.
  intros Hl H0. unfold apply_decay.
  destruct (Rle_dec (last_decay b) now) as [Hle|]; simpl; [|lra].
  assert (0 <= (now - last_decay b) * leak_rate b) by (apply Rmult_le_pos; lra).
  unfold Rmax. destruct (Rle_dec (level b - (now - last_decay b) * leak_rate b) 0); lra.
Qed.

Lemma charge_inv (now me d : R) (hw kb : nat) (b : AttentionBattery) :
  0 <= me -> 0 <= d -> battery_inv b -> battery_inv (charge now me d hw kb b).
Proof.
  intros Hme Hd Hb. pose proof (apply_decay_inv now b Hb) as Hb'.
  unfold charge. destruct (Nat.eqb _ 0); [exact Hb'|].
  destruct Hb' as [[[H0 H1] Hc] Hl]. unfold battery_inv, bounded; simpl.
  set (b' := apply_decay now b) in *.
  assert (0 <= me * d * 5) by (apply Rmult_le_pos; [apply Rmult_le_pos|]; lra).
  pose proof (pos_INR (hw - causal_event_count b')) as Hn.
  pose proof (pos_INR kb) as Hk.
  assert (0 <= Rmin (me * d * 5) (INR (hw - causal_event_count b') * 0.1)).
  { apply Rmin_glb; lra. }
  assert (0 <= Rmin (INR kb * 0.5) 20) by (apply Rmin_glb; lra).
  pose proof (Rmin_bounds (level b' + Rmin (me * d * 5)
      (INR (hw - causal_event_count b') * 0.1) + Rmin (INR kb * 0.5) 20)
      (capacity b')) as Hm.
  repeat split; try lra; apply Hm; lra.
Qed.

Lemma charge_focus_inv (now fd : R) (eb nav : nat) (b : AttentionBattery) :
  0 <= fd -> battery_inv b -> battery_inv (charge_focus now fd eb nav b).
Proof.
  intros Hfd Hb. pose proof (apply_decay_inv now b Hb) as Hb'.
  destruct Hb' as [[[H0 H1] Hc] Hl]. unfold charge_focus, battery_inv, bounded.
  set (b' := apply_decay now b) in *. simpl.
  pose proof (sqrt_pos (INR eb)). pose proof (pos_INR nav).
  assert (0 <= fd / 60 * 10) by lra.
  pose proof (Rmin_bounds (level b' + (fd / 60 * 10 + sqrt (INR eb) * 5 + INR nav * 2))
      (capacity b')) as Hm.
  repeat split; try lra; apply Hm; lra.
Qed.

Lemma consume_inv (now cost : R) (b : AttentionBattery) :
  0 <= cost -> battery_inv b -> battery_inv (snd (consume now cost b)).
Proof.
  intros Hc Hb. pose proof (apply_decay_inv now b Hb) as Hb'.
  unfold consume. set (b' := apply_decay now b) in *.
  destruct (Rle_dec cost (level b')); simpl; [|exact Hb'].
  destruct Hb' as [[[H0 H1] Hcap] Hl]. unfold battery_inv, bounded; simpl. lra.
Qed.

Lemma step_inv (op : BatteryOp) (b : AttentionBattery) :
  op_inputs_ok op -> battery_inv b -> battery_inv (step op b).
Proof.
  destruct op; simpl; intros Hok Hb.
  - destruct Hok. apply charge_inv; assumption.
  - apply charge_focus_inv; assumption.
  - apply consume_inv; assumption.
Qed.

Lemma trace_inv (ops : list BatteryOp) (b : AttentionBattery) :
  Forall op_inputs_ok ops -> battery_inv b -> Forall battery_inv (trace b ops).
Proof.
  revert b. induction ops as [|op ops IH]; intros b Hops Hb; simpl; [constructor|].
  inversion Hops as [|? ? Hop Hrest]; subst.
  pose proof (step_inv op b Hop Hb). constructor; auto.
Qed.

(** C1. Battery bounds: for every finite sequence of legacy charges,
    focus charges and consumptions started from [AttentionBattery::new()],
    with non-negative inputs, every state after an operation satisfies
    [0 <= level <= capacity] with [capacity = 100] (exactly, hence also
    within any tolerance). *)
Theorem battery_bounds (t0 : R) (ops : list BatteryOp) :
  Forall op_inputs_ok ops -> Forall bounded (trace (new t0) ops).
Proof.
  intros Hops. pose proof (trace_inv ops (new t0) Hops (new_inv t0)) as H.
  eapply Forall_impl; [exact H|]. intros b [Hb _]. exact Hb.
Qed.

Lemma battery_bounds_witness :
  Forall op_inputs_ok [OpChargeFocus 10 120 4 0; OpConsume 20 20; OpCharge 30 1 5 3 7] /\
  Forall bounded (trace (new 0) [OpChargeFocus 10 120 4 0; OpConsume 20 20; OpCharge 30 1 5 3 7]).
Proof.
  assert (Hok : Forall op_inputs_ok
    [OpChargeFocus 10 120 4 0; OpConsume 20 20; OpCharge 30 1 5 3 7]).
  { repeat constructor; simpl; lra. }
  split; [exact Hok | apply (battery_bounds 0 _ Hok)].
Defined.

End BatteryFacts.

Module ConsumeFacts.
Import Battery Ticket BatteryFacts.
Local Open Scope R_scope.

Lemma apply_decay_nonneg (now : R) (b : AttentionBattery) :
  0 <= level b -> 0 <= level (apply_decay now b).
Proof.
  intros H. unfold apply_decay. destruct (Rle_dec (last_decay b) now); simpl; [|lra].
  unfold Rmax. destruct (Rle_dec _ 0); lra.
Qed.

Lemma apply_decay_same_instant (now : R) (b : AttentionBattery) :
  last_decay b = now -> 0 <= level b -> level (apply_decay now b) = level b.
Proof.
  intros Ht H. unfold apply_decay. destruct (Rle_dec (last_decay b) now); [|lra].
  simpl. rewrite Ht. unfold Rmax. destruct (Rle_dec _ 0); lra.
Qed.

(** C2. [consume(cost)] first applies the leak decay; then either the
    post-decay level is at least [cost], the call succeeds and the level
    becomes the post-decay level minus [cost], or it is below [cost], the
    call fails and the battery is exactly the post-decay battery. A
    refused [GetTicket] therefore answers [success = false] without a
    signature and leaves the battery as decay alone leaves it. *)
Theorem consume_decay_then_check (now cost : R) (b : AttentionBattery) :
  ((cost <= level (apply_decay now b) /\
    consume now cost b =
      (true, set_level (apply_decay now b) (level (apply_decay now b) - cost)))
   \/
   (level (apply_decay now b) < cost /\
    consume now cost b = (false, apply_decay now b)))
  /\
  (forall (format_payload : R -> nat -> string)
          (sign_data : string -> list Byte.byte)
          (uptime_secs : nat) (difficulty_factor ticket_cost : R),
     let r := get_ticket format_payload sign_data now uptime_secs
                difficulty_factor ticket_cost b in
     (success (fst r) = true /\
      signature (fst r) =
        Some (sign_data (format_payload ticket_cost uptime_secs)) /\
      snd r = snd (consume now (ticket_cost * difficulty_factor) b))
     \/
     (success (fst r) = false /\ signature (fst r) = None /\
      snd r = apply_decay now b)).
Proof.
  split.
  - unfold consume. destruct (Rle_dec cost (level (apply_decay now b))) as [H|H].
    + left. auto.
    + right. split; [lra | reflexivity].
  - intros fmt sign up df tc. unfold get_ticket, consume. simpl.
    destruct (Rle_dec (tc * df) (level (apply_decay now b))); simpl.
    + left. auto.
    + right. auto.
Qed.

(** C9. [consume] checks neither the sign nor an upper bound of [cost]:
    whenever [cost] is at most the post-decay level it succeeds and sets
    the level to the post-decay level minus [cost]; a negative cost always
    passes the check (the post-decay level of a battery with non-negative
    level is non-negative), strictly raises the post-decay level, and can
    take a battery that is within bounds above its capacity. *)
Theorem consume_unchecked_cost (now cost : R) (b : AttentionBattery) :
  cost <= level (apply_decay now b) ->
  consume now cost b =
    (true, set_level (apply_decay now b) (level (apply_decay now b) - cost)) /\
  (cost < 0 -> level (apply_decay now b) < level (snd (consume now cost b))) /\
  (0 <= level b -> forall c : R, c < 0 -> c <= level (apply_decay now b)) /\
  (exists b0 : AttentionBattery,
     bounded b0 /\ capacity b0 < level (snd (consume now (-1) b0))).
Proof.
  intros Hc.
  assert (Hcons : consume now cost b =
    (true, set_level (apply_decay now b) (level (apply_decay now b) - cost))).
  { unfold consume. destruct (Rle_dec cost (level (apply_decay now b))); [reflexivity|lra]. }
  split; [exact Hcons|]. split; [|split].
  - intros Hneg. rewrite Hcons. simpl. lra.
  - intros H0 c Hc0. pose proof (apply_decay_nonneg now b H0). lra.
  - exists (set_level (new now) 100). split.
    + unfold bounded, set_level, new; simpl. lra.
    + assert (Hl : level (apply_decay now (set_level (new now) 100)) = 100).
      { rewrite apply_decay_same_instant; simpl; [reflexivity|reflexivity|lra]. }
      unfold consume. rewrite Hl.
      destruct (Rle_dec (-1) 100); [|lra]. simpl.
      unfold apply_decay. destruct (Rle_dec now now); simpl; lra.
Qed.

Lemma consume_unchecked_cost_witness :
  5 <= level (apply_decay 0 (new 0)) /\
  consume 0 5 (new 0) =
    (true, set_level (apply_decay 0 (new 0)) (level (apply_decay 0 (new 0)) - 5)).
Proof.
  assert (H : 5 <= level (apply_decay 0 (new 0))).
  { rewrite apply_decay_same_instant; simpl; [lra|reflexivity|lra]. }
  split; [exact H|]. apply (consume_unchecked_cost 0 5 (new 0) H).
Defined.

End ConsumeFacts.

(* ================================================================= *)
(** * Properties of the per-path debouncer *)
(* ================================================================= *)

Module DebounceFacts.
Import Monitor.
Local Open Scope Z_scope.


Lemma EditKind_eqb_Delete (k : EditKind) : EditKind_eqb k Delete = true <-> k = Delete.
Proof. destruct k; simpl; split; congruence. Qed.

Lemma ForallOrdPairs_snoc {A} (R : A -> A -> Prop) (l : list A) (x : A) :
  ForallOrdPairs R l -> Forall (fun a => R a x) l -> ForallOrdPairs R (l ++ [x]).
Proof.
  induction l as [|a l IH]; intros Hp Hf; simpl.
  - constructor; constructor.
  - inversion Hp as [|? ? Ha Hl]; subst. inversion Hf as [|? ? Hax Hfl]; subst.
    constructor.
    + apply Forall_app; split; [exact Ha | constructor; [exact Hax | constructor]].
    + apply IH; assumption.
Qed.

(** The periodic eviction only removes entries below the cutoff. *)
Lemma gc_lookup (b : bool) (cutoff : Z) (m : gmap PathBuf Z) (q : PathBuf) (v : Z) :
  m !! q = Some v ->
  (if b then filter (fun kt : PathBuf * Z => cutoff <= kt.2) m else m) !! q = Some v
  \/ v < cutoff.
Proof.
  intros Hq. destruct b; [|left; exact Hq].
  destruct (decide (cutoff <= v)) as [Hc|Hc].
  - left. apply map_lookup_filter_Some. split; [exact Hq | exact Hc].
  - right. lia.
Qed.

Lemma gc_lookup_back (b : bool) (cutoff : Z) (m : gmap PathBuf Z) (q : PathBuf) (v : Z) :
  (if b then filter (fun kt : PathBuf * Z => cutoff <= kt.2) m else m) !! q = Some v ->
  m !! q = Some v.
Proof.
  destruct b; [|auto]. intros H. apply map_lookup_filter_Some in H. tauto.
Qed.

Lemma sat_sub_spec (a b : Z) :
  0 <= a -> 0 <= b ->
  0 <= sat_sub a b <= a /\ (0 < sat_sub a b -> sat_sub a b = a - b).
Proof.
  intros Ha Hb. unfold sat_sub. destruct (a <? b) eqn:E;
    [apply Z.ltb_lt in E | apply Z.ltb_ge in E]; lia.
Qed.

Section Monotone.
Variable w : Z.
Hypothesis Hw : 0 <= w <= u128_max.


Lemma Inv_new : debounce_inv w (new w) [] 0.
  Proof.
    unfold debounce_inv, new; simpl. split; [reflexivity|split; [lia|split]].
    - intros q v Hq. rewrite lookup_empty in Hq. discriminate.
    - intros a [].
  Qed.

Lemma window_le_gc_span : w <= sat_mul w 16 <= u128_max.
  Proof. unfold sat_mul, u128_max in *. lia. Qed.

  (** The eviction step keeps the invariant. *)
Lemma gc_preserves (gcb : bool) (m1 : gmap PathBuf Z) (H : list RawEvent)
      (t sn ge : Z) :
    0 <= t ->
    (forall q v, m1 !! q = Some v -> 0 <= v <= t) ->
    (forall a, In a H -> kind a <> Delete ->
       timestamp_us a <= t /\
       ((exists v, m1 !! rel_path a = Some v /\ timestamp_us a <= v)
        \/ timestamp_us a + w <= t)) ->
    debounce_inv w {| window_us := w;
           last_emit_us :=
             if gcb then
               filter (fun kt : PathBuf * Z => sat_sub t (sat_mul w 16) <= kt.2) m1
             else m1;
           seen := sn; gc_every := ge |} H t.
  Proof.
    intros Ht Hm1 Hcov. pose proof window_le_gc_span as HM.
    pose proof (sat_sub_spec t (sat_mul w 16) Ht ltac:(lia)) as [Hc1 Hc2].
    unfold debounce_inv; cbn [window_us last_emit_us].
    split; [reflexivity|split; [exact Ht|split]].
    - intros q v Hq. apply gc_lookup_back in Hq. exact (Hm1 q v Hq).
    - intros a Ha Hka. destruct (Hcov a Ha Hka) as [Hle [[v [Hv Hav]]|Hold]];
        split; try exact Hle; [|right; exact Hold].
      destruct (gc_lookup gcb (sat_sub t (sat_mul w 16)) m1 (rel_path a) v Hv)
        as [Hkeep|Hlow].
      + left. exists v. split; [exact Hkeep|exact Hav].
      + right. pose proof (Hm1 _ _ Hv). specialize (Hc2 ltac:(lia)). lia.
  Qed.

  (** One call of [should_emit] on an event no older than the previous
      ones: an emitted Create/Modify event is separated from every event
      already sent downstream, and the invariant is kept. *)
Lemma should_emit_step (d : Debouncer) (H : list RawEvent) (tmax : Z)
      (e : RawEvent) :
    debounce_inv w d H tmax -> tmax <= timestamp_us e <= u128_max ->
    (fst (should_emit d (rel_path e) (kind e) (timestamp_us e)) = true ->
       Forall (fun a => separated w a e) H) /\
    debounce_inv w (snd (should_emit d (rel_path e) (kind e) (timestamp_us e)))
        (if fst (should_emit d (rel_path e) (kind e) (timestamp_us e))
         then H ++ [e] else H)
        (timestamp_us e).
  Proof.
    intros (Hwin & Ht0 & Hent & Hhist) [Ht1 Ht2].
    destruct e as [p t k]; cbn [rel_path kind timestamp_us] in *.
    unfold should_emit.
    destruct (EditKind_eqb k Delete) eqn:Hk.
    { apply EditKind_eqb_Delete in Hk; subst k. cbn [fst snd]. split.
      - intros _. apply List.Forall_forall. intros a _ _ _ Hd. exfalso. apply Hd. reflexivity.
      - split; [exact Hwin|split; [lia|split]].
        + intros q v Hq. specialize (Hent q v Hq). lia.
        + intros a Ha Hka. apply in_app_or in Ha. destruct Ha as [Ha|[Ha|[]]].
          * destruct (Hhist a Ha Hka) as [Hle [Hd|Hd]];
              (split; [lia|]); [left; exact Hd|right; lia].
          * subst a. exfalso. apply Hka. reflexivity. }
    assert (Hknd : k <> Delete) by (intros ->; discriminate).
    cbv zeta. rewrite Hwin.
    destruct (last_emit_us d !! p) as [v|] eqn:Hv.
    - destruct (sat_sub t v <? w) eqn:Hlt; cbn [negb fst snd].
      + (* suppressed *)
        split; [discriminate|].
        apply gc_preserves; [lia| |].
        * intros q v' Hq. specialize (Hent q v' Hq). lia.
        * intros a Ha Hka. destruct (Hhist a Ha Hka) as [Hle [Hd|Hd]];
            (split; [lia|]); [left; exact Hd|right; lia].
      + (* emitted *)
        apply Z.ltb_ge in Hlt. pose proof (Hent p v Hv) as [Hv0 Hv1].
        assert (Hsub : sat_sub t v = t - v).
        { unfold sat_sub. destruct (t <? v) eqn:E; [apply Z.ltb_lt in E; lia|reflexivity]. }
        split.
        * intros _. apply List.Forall_forall. intros a Ha Hp Hka _.
          cbn [rel_path timestamp_us] in *.
          destruct (Hhist a Ha Hka) as [Hle [[v' [Hv' Hav]]|Hold]].
          -- rewrite Hp, Hv in Hv'. injection Hv' as <-. lia.
          -- lia.
        * apply gc_preserves; [lia| |].
          -- intros q v' Hq. rewrite lookup_insert in Hq.
             destruct (decide (p = q)); [injection Hq as <-; lia|].
             specialize (Hent q v' Hq). lia.
          -- intros a Ha Hka. apply in_app_or in Ha. destruct Ha as [Ha|[Ha|[]]].
             ++ destruct (Hhist a Ha Hka) as [Hle [[v' [Hv' Hav]]|Hold]];
                  (split; [lia|]); [|right; lia].
                left. rewrite lookup_insert.
                destruct (decide (p = rel_path a)) as [Hpa|Hpa].
                ** exists t. split; [reflexivity|].
                   rewrite <- Hpa, Hv in Hv'. injection Hv' as <-. lia.
                ** exists v'. split; [exact Hv'|exact Hav].
             ++ subst a. cbn [rel_path timestamp_us]. split; [lia|].
                left. exists t. split; [|lia]. rewrite lookup_insert.
                destruct (decide (p = p)); [reflexivity|congruence].
    - cbn [fst snd]. split.
      + intros _. apply List.Forall_forall. intros a Ha Hp Hka _.
        cbn [rel_path timestamp_us] in *.
        destruct (Hhist a Ha Hka) as [Hle [[v' [Hv' Hav]]|Hold]].
        * rewrite Hp, Hv in Hv'. discriminate.
        * lia.
      + apply gc_preserves; [lia| |].
        * intros q v' Hq. rewrite lookup_insert in Hq.
          destruct (decide (p = q)); [injection Hq as <-; lia|].
          specialize (Hent q v' Hq). lia.
        * intros a Ha Hka. apply in_app_or in Ha. destruct Ha as [Ha|[Ha|[]]].
          -- destruct (Hhist a Ha Hka) as [Hle [[v' [Hv' Hav]]|Hold]];
               (split; [lia|]); [|right; lia].
             left. rewrite lookup_insert.
             destruct (decide (p = rel_path a)) as [Hpa|Hpa].
             ++ rewrite <- Hpa, Hv in Hv'. discriminate.
             ++ exists v'. split; [exact Hv'|exact Hav].
          -- subst a. cbn [rel_path timestamp_us]. split; [lia|].
             left. exists t. split; [|lia]. rewrite lookup_insert.
             destruct (decide (p = p)); [reflexivity|congruence].
  Qed.


  (** A run over raw events in non-decreasing timestamp order. *)
Lemma run_separated (evs : list RawEvent) :
    forall d H tmax,
      debounce_inv w d H tmax -> ForallOrdPairs (separated w) H ->
      Forall (fun e => tmax <= timestamp_us e <= u128_max) evs ->
      StronglySorted (fun a b => timestamp_us a <= timestamp_us b) evs ->
      ForallOrdPairs (separated w) (H ++ fst (debounce_run d evs)).
  Proof.
    induction evs as [|e evs IH]; intros d H tmax HI HH Hr Hs.
    - simpl. rewrite app_nil_r. exact HH.
    - inversion Hr as [|? ? He Hr']; subst.
      inversion Hs as [|? ? Hs' Hhd]; subst.
      pose proof (should_emit_step d H tmax e HI He) as Hstep.
      simpl. destruct (should_emit d (rel_path e) (kind e) (timestamp_us e))
        as [ok d1] eqn:Hse.
      cbn [fst snd] in Hstep. destruct Hstep as [Hsep HI'].
      destruct (debounce_run d1 evs) as [out d2] eqn:Hrun. cbn [fst].
      assert (Hr'' : Forall (fun b => timestamp_us e <= timestamp_us b <= u128_max) evs).
      { apply List.Forall_forall. intros b Hb.
        rewrite List.Forall_forall in Hhd, Hr'.
        specialize (Hhd b Hb). specialize (Hr' b Hb). lia. }
      destruct ok.
      + assert (HH' : ForallOrdPairs (separated w) (H ++ [e]))
          by (apply ForallOrdPairs_snoc; [exact HH | exact (Hsep eq_refl)]).
        pose proof (IH d1 (H ++ [e]) (timestamp_us e) HI' HH' Hr'' Hs') as Hfin.
        rewrite Hrun in Hfin. cbn [fst] in Hfin.
        rewrite <- app_assoc in Hfin. exact Hfin.
      + pose proof (IH d1 H (timestamp_us e) HI' HH Hr'' Hs') as Hfin.
        rewrite Hrun in Hfin. exact Hfin.
  Qed.

End Monotone.

Lemma should_emit_delete (d : Debouncer) (p : PathBuf) (ts : Z) :
  should_emit d p Delete ts = (true, d).
Proof. reflexivity. Qed.

Lemma decisions_delete_true (evs : list RawEvent) :
  forall d e ok, In (e, ok) (debounce_decisions d evs) -> kind e = Delete -> ok = true.
Proof.
  induction evs as [|e0 evs IH]; intros d e ok Hin Hk; simpl in Hin; [contradiction|].
  destruct (should_emit d (rel_path e0) (kind e0) (timestamp_us e0)) as [ok0 d1] eqn:Hse.
  destruct Hin as [Heq|Hin].
  - injection Heq as <- <-. rewrite Hk in Hse. rewrite should_emit_delete in Hse.
    injection Hse as <- _. reflexivity.
  - exact (IH d1 e ok Hin Hk).
Qed.

(** C4 (as amended). For raw events whose timestamps are valid [u128]
    values and non-decreasing in processing order, and a window of at most
    [u128::MAX] microseconds, starting from [Debouncer::new]: no Delete
    event is suppressed, and no two Create/Modify events on the same path
    whose timestamps lie within the window of each other are both sent
    downstream. *)
Theorem debounce_semantics_monotone (w : Z) (evs : list RawEvent) :
  0 <= w <= u128_max ->
  Forall (fun e => 0 <= timestamp_us e <= u128_max) evs ->
  Sorted (fun a b => timestamp_us a <= timestamp_us b) evs ->
  debounce_semantics w evs.
Proof.
  intros Hw Hr Hs. split.
  - intros e ok Hin Hk. exact (decisions_delete_true evs (new w) e ok Hin Hk).
  - apply Sorted_StronglySorted in Hs; [|intros x y z; lia].
    exact (run_separated w Hw evs (new w) [] 0 (Inv_new w)
             (FOP_nil _) Hr Hs).
Qed.


Lemma cex_downstream :
  fst (debounce_run (new 120000) cex_events) =
  [mkRaw ["p"] cex_t0 Modify; mkRaw ["q"] (cex_t0 + 16 * 120000 + 10) Modify;
   mkRaw ["p"] (cex_t0 + 1) Modify].
Proof. vm_compute. reflexivity. Qed.

(** C4 as stated fails: with timestamps that step backwards, two Modify
    events on one path 1 microsecond apart are both sent downstream. *)
Lemma debounce_semantics_counterexample : ~ debounce_semantics 120000 cex_events.
Proof.
  intros [_ H]. rewrite cex_downstream in H.
  inversion H as [|? ? Hf _]; subst.
  inversion Hf as [|? ? _ Hf']; subst.
  inversion Hf' as [|? ? Hsep _]; subst.
  apply Hsep; [reflexivity|discriminate|discriminate|].
  unfold cex_t0. cbn [timestamp_us]. lia.
Qed.

(** C10. A Delete event leaves the debouncer exactly as it is (table and
    observation counter), and the decisions taken on the Create/Modify
    events of any sequence, and the final debouncer, are those of the same
    sequence with every Delete removed. *)
Theorem delete_is_frame (d : Debouncer) (evs : list RawEvent) :
  (forall (p : PathBuf) (ts : Z), should_emit d p Delete ts = (true, d)) /\
  List.filter (fun eo => is_not_delete (fst eo)) (debounce_decisions d evs) =
    debounce_decisions d (List.filter is_not_delete evs) /\
  snd (debounce_run d evs) = snd (debounce_run d (List.filter is_not_delete evs)).
Proof.
  split; [intros; reflexivity|].
  revert d. induction evs as [|e evs IH]; intros d; [split; reflexivity|].
  destruct e as [p t k].
  destruct (EditKind_eqb k Delete) eqn:Hk.
  - apply EditKind_eqb_Delete in Hk. subst k.
    cbn [debounce_decisions debounce_run List.filter is_not_delete fst kind
         EditKind_eqb negb rel_path timestamp_us].
    rewrite should_emit_delete. destruct (IH d) as [IH1 IH2].
    split; [exact IH1|]. destruct (debounce_run d evs) as [o1 f1]. exact IH2.
  - assert (Hnd : is_not_delete (mkRaw p t k) = true)
      by (unfold is_not_delete; cbn [kind]; rewrite Hk; reflexivity).
    cbn [debounce_decisions debounce_run List.filter fst].
    rewrite Hnd. cbn [debounce_decisions debounce_run rel_path kind timestamp_us].
    destruct (should_emit d p k t) as [ok d1].
    destruct (IH d1) as [IH1 IH2].
    cbn [List.filter fst]. rewrite Hnd, IH1. split; [reflexivity|].
    destruct (debounce_run d1 evs) as [o1 f1].
    destruct (debounce_run d1 (List.filter is_not_delete evs)) as [o2 f2].
    exact IH2.
Qed.

End DebounceFacts.

Module DebounceWitness.
Import Monitor DebounceFacts.
Local Open Scope Z_scope.


Lemma debounce_semantics_monotone_witness :
  (0 <= 120000 <= u128_max) /\
  Forall (fun e => 0 <= timestamp_us e <= u128_max) s4_events /\
  Sorted (fun a b => timestamp_us a <= timestamp_us b) s4_events /\
  debounce_semantics 120000 s4_events.
Proof.
  assert (Hw : 0 <= 120000 <= u128_max) by (unfold u128_max; lia).
  assert (Hr : Forall (fun e => 0 <= timestamp_us e <= u128_max) s4_events)
    by (unfold s4_events, u128_max; repeat constructor; simpl; lia).
  assert (Hs : Sorted (fun a b => timestamp_us a <= timestamp_us b) s4_events)
    by (unfold s4_events; repeat constructor; simpl; lia).
  split; [exact Hw|split; [exact Hr|split; [exact Hs|]]].
  exact (debounce_semantics_monotone 120000 s4_events Hw Hr Hs).
Defined.

Lemma s4_downstream :
  fst (debounce_run (new 120000) s4_events) =
  [mkRaw ["x"] 0 Create; mkRaw ["x"] 60000 Delete].
Proof. vm_compute. reflexivity. Qed.

End DebounceWitness.

(* ================================================================= *)
(** * The path filter under the default configuration *)
(* ================================================================= *)

Module PathFilterFacts.
Import Monitor.
Local Open Scope Z_scope.

(** C5 (failing input). Under [MonitorConfig::new], a modification of
    [Cargo.lock] passes the filter and reaches downstream, although its
    final extension is [lock]: the default extension set is [{log}]. *)
Lemma lock_file_not_ignored :
  ignore_extensions default_config = list_to_set ["log"] /\
  extension ["Cargo.lock"] = Some "lock"%string /\
  monitor_pipeline default_config [([Normal "Cargo.lock"], 1000, Modify)] =
    [mkRaw ["Cargo.lock"] 1000 Modify].
Proof. split; [reflexivity|]. split; vm_compute; reflexivity. Qed.

Lemma log_file_ignored :
  monitor_pipeline default_config
    [([Normal "daemon.log"], 1000, Modify); ([Normal ".git"; Normal "index"], 1001, Modify);
     ([CurDir; Normal "src"; ParentDir; Normal "target"; Normal "a.o"], 1002, Create)] = [].
Proof. vm_compute. reflexivity. Qed.

End PathFilterFacts.

(* ================================================================= *)
(** * FocusTracker::reset *)
(* ================================================================= *)

Module ResetFacts.
Import Focus Metrics.
Local Open Scope R_scope.

(** C6 (failing input). [reset()] clears neither the productive set nor
    the per-file navigation accumulator: after marking [/a.rs] productive
    and navigating in it, [get_metrics()] right after [reset()] still
    reports one unique file and one navigation event, not the default
    metrics. *)
Lemma reset_keeps_productive_state :
  let t := run_tracker [OpNavigation "/a.rs" 5; OpMarkProductive "/a.rs"; OpReset] in
  unique_files (get_metrics 0 t) = 1%nat /\
  navigation_events (get_metrics 0 t) = 1%nat /\
  get_metrics 0 t <> default_metrics.
Proof.
  cbv zeta.
  assert (Hu : unique_files (get_metrics 0 (run_tracker
                 [OpNavigation "/a.rs" 5; OpMarkProductive "/a.rs"; OpReset])) = 1%nat).
  { unfold get_metrics. cbn [unique_files]. vm_compute. reflexivity. }
  split; [exact Hu|]. split.
  - unfold get_metrics. cbn [navigation_events]. vm_compute. reflexivity.
  - intros H. rewrite H in Hu. discriminate Hu.
Qed.

End ResetFacts.

(* ================================================================= *)
(** * The synthetic-pattern flag *)
(* ================================================================= *)

Module SyntheticFacts.
Import Stats.
Local Open Scope R_scope.

Lemma Rltb_true (a b : R) : a < b -> Rltb a b = true.
Proof. intros H. unfold Rltb. destruct (Rlt_dec a b); [reflexivity|contradiction]. Qed.

Lemma Rltb_spec (a b : R) : Rltb a b = true <-> a < b.
Proof.
  unfold Rltb. destruct (Rlt_dec a b); split; intros; auto; discriminate.
Qed.

Lemma fold_left_Rplus_shift (l : list R) (a : R) :
  fold_left Rplus l a = a + fold_left Rplus l 0.
Proof.
  revert a. induction l as [|x l IH]; intros a; simpl; [lra|].
  rewrite (IH (a + x)), (IH (0 + x)). lra.
Qed.

(** A sum of values each above [eps] exceeds [length * eps]. *)
Lemma sum_above (eps : R) (l : list R) :
  (forall x, In x l -> eps < x) -> l <> [] -> INR (List.length l) * eps < sum l.
Proof.
  unfold sum. induction l as [|x l IH]; intros Hall Hne; [congruence|].
  simpl List.length. cbn [fold_left]. rewrite fold_left_Rplus_shift.
  assert (Hx : eps < x) by (apply Hall; left; reflexivity).
  destruct l as [|y l'].
  - simpl. lra.
  - assert (IH' : INR (List.length (y :: l')) * eps < fold_left Rplus (y :: l') 0).
    { apply IH; [intros z Hz; apply Hall; right; exact Hz | discriminate]. }
    rewrite S_INR. lra.
Qed.

Lemma get_intervals_above (times : list R) (x : R) :
  In x (get_intervals times) -> 1e-10 < x.
Proof.
  unfold get_intervals. intros H. apply filter_In in H as [_ H].
  apply Rltb_spec. exact H.
Qed.

(** With at least one interval, the mean interval is above [1e-10]. *)
Lemma mean_above (times : list R) :
  get_intervals times <> [] ->
  1e-10 < sum (get_intervals times) / INR (List.length (get_intervals times)).
Proof.
  intros Hne.
  pose proof (sum_above 1e-10 (get_intervals times)
                (get_intervals_above times) Hne) as Hs.
  assert (Hn : 0 < INR (List.length (get_intervals times))).
  { apply lt_0_INR. destruct (get_intervals times); [congruence|simpl; lia]. }
  apply (Rmult_lt_reg_r (INR (List.length (get_intervals times)))); [exact Hn|].
  replace (sum (get_intervals times) / INR (List.length (get_intervals times)) *
           INR (List.length (get_intervals times)))
    with (sum (get_intervals times)) by (field; lra).
  lra.
Qed.

(** C7 (as amended). The flag is set exactly when at least five
    consecutive absolute differences of the series exceed [1e-10] (the
    intervals; so at least six timestamps) and the coefficient of
    variation (population standard deviation over mean) of those
    intervals is below [0.15]. The [mean < 1e-10] branch is unreachable. *)
Theorem is_synthetic_pattern_iff (times : list R) :
  let intervals := get_intervals times in
  let mean := sum intervals / INR (List.length intervals) in
  is_synthetic_pattern times = true <->
  (5 <= List.length intervals)%nat /\
  calculate_std_dev intervals mean / mean < 0.15.
Proof.
  cbv zeta. unfold is_synthetic_pattern. cbv zeta.
  destruct (Nat.ltb (List.length (get_intervals times)) 5) eqn:Hlt.
  - apply Nat.ltb_lt in Hlt. split; [discriminate|]. intros [H _]. lia.
  - apply Nat.ltb_ge in Hlt.
    assert (Hne : get_intervals times <> []).
    { intros He. rewrite He in Hlt. simpl in Hlt. lia. }
    pose proof (mean_above times Hne) as Hm.
    destruct (Rltb (sum (get_intervals times) / INR (List.length (get_intervals times)))
                1e-10) eqn:Hb.
    + apply Rltb_spec in Hb. lra.
    + rewrite Rltb_spec. split; [intros H; split; [exact Hlt|exact H] | intros [_ H]; exact H].
Qed.

Lemma get_intervals_0_to_4 : get_intervals [0; 1; 2; 3; 4] = [1; 1; 1; 1].
Proof.
  unfold get_intervals. simpl.
  replace (1 - 0) with 1 by lra. replace (2 - 1) with 1 by lra.
  replace (3 - 2) with 1 by lra. replace (4 - 3) with 1 by lra.
  rewrite Rabs_R1, (Rltb_true 1e-10 1) by lra. reflexivity.
Qed.

(** C7 as stated fails: five evenly spaced timestamps (coefficient of
    variation of the intervals 0) are not flagged, because they give only
    four intervals. *)
Lemma five_regular_samples_not_flagged :
  List.length [0; 1; 2; 3; 4] = 5%nat /\
  get_intervals [0; 1; 2; 3; 4] = [1; 1; 1; 1] /\
  calculate_std_dev [1; 1; 1; 1] 1 / 1 < 0.15 /\
  is_synthetic_pattern [0; 1; 2; 3; 4] = false.
Proof.
  split; [reflexivity|]. split; [exact get_intervals_0_to_4|]. split.
  - unfold calculate_std_dev, sum. simpl.
    replace ((0 + (1 - 1) * (1 - 1) + (1 - 1) * (1 - 1) + (1 - 1) * (1 - 1) +
              (1 - 1) * (1 - 1)) / (1 + 1 + 1 + 1)) with 0 by lra.
    rewrite sqrt_0. lra.
  - unfold is_synthetic_pattern. rewrite get_intervals_0_to_4. reflexivity.
Qed.

End SyntheticFacts.


(* ================================================================= *)
(** * Further properties of the scoring functions (stats.rs) *)
(* ================================================================= *)

Module ScoreFacts.
Import Stats SyntheticFacts.
Local Open Scope R_scope.

Lemma sum_cons (x : R) (l : list R) : sum (x :: l) = x + sum l.
Proof. unfold sum. cbn [fold_left]. rewrite fold_left_Rplus_shift. lra. Qed.

Lemma sum_bounds (lo hi : R) (l : list R) :
  Forall (fun s => lo <= s <= hi) l ->
  INR (List.length l) * lo <= sum l <= INR (List.length l) * hi.
Proof.
  induction l as [|x l IH]; intros H.
  - unfold sum. simpl. lra.
  - inversion H as [|? ? Hx Hl]; subst. specialize (IH Hl).
    rewrite sum_cons. cbn [List.length]. rewrite S_INR. lra.
Qed.

Lemma sum_repeat (g : R) (m : nat) : sum (repeat g m) = INR m * g.
Proof.
  induction m as [|m IH]; [unfold sum; simpl; lra|].
  cbn [repeat]. rewrite sum_cons, IH, S_INR. lra.
Qed.

Lemma windows2_seq (f : nat -> R) (k m : nat) :
  windows2 (map f (seq k (S m))) = map (fun i => (f i, f (S i))) (seq k m).
Proof.
  revert k. induction m as [|m IH]; intros k; [reflexivity|].
  change (seq k (S (S m))) with (k :: seq (S k) (S m)).
  change (seq k (S m)) with (k :: seq (S k) m).
  rewrite !map_cons. rewrite <- (IH (S k)). reflexivity.
Qed.

Lemma map_const_seq {A B} (c : B) (k m : nat) (f : A) :
  map (fun _ : nat => c) (seq k m) = repeat c m.
Proof.
  revert k. induction m as [|m IH]; intros k; [reflexivity|].
  simpl. rewrite IH. reflexivity.
Qed.

(** The intervals of an evenly spaced series. *)
Lemma get_intervals_regular (t0 g : R) (m : nat) :
  1e-10 < g ->
  get_intervals (map (fun i => t0 + INR i * g) (seq 0 (S m))) = repeat g m.
Proof.
  intros Hg. unfold get_intervals. rewrite windows2_seq, map_map.
  erewrite map_ext_in.
  2:{ intros i _. cbn [fst snd].
      replace (t0 + INR (S i) * g - (t0 + INR i * g)) with g by (rewrite S_INR; ring).
      rewrite Rabs_right by lra. reflexivity. }
  rewrite (map_const_seq g 0 m 0%nat).
  induction m as [|m IH]; [reflexivity|].
  cbn [repeat List.filter]. rewrite (Rltb_true 1e-10 g Hg), IH. reflexivity.
Qed.

Lemma std_dev_repeat (g : R) (m : nat) : calculate_std_dev (repeat g m) g = 0.
Proof.
  unfold calculate_std_dev.
  replace (map (fun value => (g - value) * (g - value)) (repeat g m)) with (repeat 0 m).
  2:{ induction m as [|m IH]; [reflexivity|]. cbn [repeat map]. rewrite <- IH.
      f_equal. ring. }
  rewrite sum_repeat. replace (INR m * 0) with 0 by ring.
  unfold Rdiv. rewrite Rmult_0_l. apply sqrt_0.
Qed.

Lemma fold_Rmin_repeat (g : R) (m : nat) : fold_left Rmin (repeat g m) g = g.
Proof.
  induction m as [|m IH]; [reflexivity|]. cbn [repeat fold_left].
  rewrite Rmin_left by lra. exact IH.
Qed.

Lemma map_ln_repeat (g : R) (k : nat) :
  0 < g -> map (fun x => ln (x / g)) (repeat g k) = repeat 0 k.
Proof.
  intros Hg. induction k as [|k IH]; [reflexivity|]. cbn [repeat map].
  rewrite IH. f_equal. unfold Rdiv. rewrite Rinv_r by lra. apply ln_1.
Qed.

(** Burstiness is always in [[-1, 1)]. *)
Theorem burstiness_range (times : list R) :
  -1 <= calculate_burstiness times < 1.
Proof.
  unfold calculate_burstiness.
  destruct (Nat.ltb (List.length times) 2); [lra|].
  destruct (get_intervals times) as [|x l]; [lra|]. cbv zeta.
  set (m := sum (x :: l) / INR (List.length (x :: l))).
  set (s := calculate_std_dev (x :: l) m).
  destruct (Rltb m 1e-10) eqn:Hm; [simpl; lra|].
  destruct (Rltb s 1e-10) eqn:Hs; [simpl; lra|]. cbn [orb].
  assert (Hm' : ~ m < 1e-10) by (rewrite <- Rltb_spec; congruence).
  assert (Hs' : ~ s < 1e-10) by (rewrite <- Rltb_spec; congruence).
  assert (Hpos : 0 < s + m) by lra.
  split.
  - apply (Rmult_le_reg_r (s + m)); [exact Hpos|].
    unfold Rdiv. rewrite Rmult_assoc, Rinv_l by lra. lra.
  - apply (Rmult_lt_reg_r (s + m)); [exact Hpos|].
    unfold Rdiv. rewrite Rmult_assoc, Rinv_l by lra. lra.
Qed.

(** An evenly spaced series (at least two timestamps, a constant gap
    above [1e-10]) has burstiness [-1] and Pareto alpha [0]. *)
Theorem regular_series_scores (t0 g : R) (n : nat) :
  1e-10 < g -> (2 <= n)%nat ->
  let times := map (fun i => t0 + INR i * g) (seq 0 n) in
  calculate_burstiness times = -1 /\ estimate_pareto_alpha times = 0.
Proof.
  intros Hg Hn. cbv zeta.
  destruct n as [|m]; [lia|].
  pose proof (get_intervals_regular t0 g m Hg) as Hi.
  split.
  - unfold calculate_burstiness.
    rewrite length_map, length_seq.
    destruct (Nat.ltb (S m) 2) eqn:Hlt; [apply Nat.ltb_lt in Hlt; lia|].
    rewrite Hi. destruct m as [|m']; [lia|]. cbv zeta.
    rewrite repeat_length.
    replace (sum (repeat g (S m')) / INR (S m')) with g
      by (rewrite sum_repeat; field; apply not_0_INR; lia).
    rewrite std_dev_repeat.
    rewrite (Rltb_true 0 1e-10) by lra. rewrite orb_true_r. reflexivity.
  - unfold estimate_pareto_alpha. rewrite Hi, repeat_length.
    destruct (Nat.ltb m 5) eqn:Hlt; [reflexivity|].
    apply Nat.ltb_ge in Hlt. destruct m as [|m']; [lia|].
    cbn [repeat]. cbv zeta. rewrite fold_Rmin_repeat.
    destruct (Rltb g 1e-10) eqn:Hb; [reflexivity|].
    change (g :: repeat g m') with (repeat g (S m')).
    rewrite (map_ln_repeat g (S m')) by lra.
    rewrite sum_repeat. replace (INR (S m') * 0) with 0 by ring.
    rewrite (Rltb_true 0 1e-10) by lra. reflexivity.
Qed.

Lemma regular_series_scores_witness :
  1e-10 < 1 /\ (2 <= 6)%nat /\
  calculate_burstiness (map (fun i => 0 + INR i * 1) (seq 0 6)) = -1 /\
  estimate_pareto_alpha (map (fun i => 0 + INR i * 1) (seq 0 6)) = 0.
Proof.
  assert (H1 : 1e-10 < 1) by lra. assert (H2 : (2 <= 6)%nat) by lia.
  split; [exact H1|]. split; [exact H2|]. exact (regular_series_scores 0 1 6 H1 H2).
Defined.

Lemma fclamp_range (x : R) : 0 <= fclamp x 0 1 <= 1.
Proof. unfold fclamp. destruct (Rlt_dec x 0); [lra|]. destruct (Rlt_dec 1 x); lra. Qed.

(** The human score of any timestamp series, with a non-negative focus
    time, lies in [[0, 1]], and the synthetic flag halves it exactly. *)
Theorem human_score_range (times : list R) (ncd focus_mins : R) (nav_events : nat) :
  0 <= focus_mins ->
  let s := calculate_human_score (calculate_burstiness times) ncd focus_mins nav_events false in
  0 <= s <= 1 /\
  calculate_human_score (calculate_burstiness times) ncd focus_mins nav_events true = s * 0.5.
Proof.
  intros Hf. cbv zeta. pose proof (burstiness_range times) as Hb.
  pose proof (fclamp_range ncd) as Hn. pose proof (pos_INR nav_events) as Hv.
  unfold calculate_human_score. cbv zeta.
  assert (Hfs : 0 <= Rmin (focus_mins * 0.1 + INR nav_events * 0.02) 1 <= 1).
  { split; [apply Rmin_glb; lra | apply Rmin_r]. }
  split; [lra | reflexivity].
Qed.

Lemma human_score_range_witness :
  0 <= 2 /\
  0 <= calculate_human_score (calculate_burstiness [0; 1; 3]) 0.5 2 4 false <= 1 /\
  calculate_human_score (calculate_burstiness [0; 1; 3]) 0.5 2 4 true =
    calculate_human_score (calculate_burstiness [0; 1; 3]) 0.5 2 4 false * 0.5.
Proof.
  assert (H : 0 <= 2) by lra. split; [exact H|].
  exact (human_score_range [0; 1; 3] 0.5 2 4 H).
Defined.

(** The coupling score always lies in [[0, 1]], and it is [1] exactly
    when the code complexity is below [0.1] or equals the motor entropy. *)
Theorem coupling_score_spec (code_complexity motor_entropy : R) :
  0 <= calculate_coupling_score code_complexity motor_entropy <= 1 /\
  (calculate_coupling_score code_complexity motor_entropy = 1 <->
   code_complexity < 0.1 \/ code_complexity = motor_entropy).
Proof.
  unfold calculate_coupling_score.
  destruct (Rltb code_complexity 0.1) eqn:Hc.
  - apply Rltb_spec in Hc. split; [lra|]. split; [intros _; left; exact Hc | intros _; reflexivity].
  - assert (Hc' : ~ code_complexity < 0.1) by (rewrite <- Rltb_spec; congruence).
    cbv zeta. split; [apply fclamp_range|].
    pose proof (Rabs_pos (code_complexity - motor_entropy)) as Ha.
    unfold fclamp.
    destruct (Rlt_dec (1 - Rabs (code_complexity - motor_entropy)) 0).
    + split; [lra|]. intros [H|H]; [lra|]. rewrite H, Rminus_diag, Rabs_R0 in *. lra.
    + destruct (Rlt_dec 1 (1 - Rabs (code_complexity - motor_entropy))); [lra|].
      split.
      * intros H. right. destruct (Req_dec_T code_complexity motor_entropy) as [E|E]; [exact E|].
        assert (0 < Rabs (code_complexity - motor_entropy)) by (apply Rabs_pos_lt; lra). lra.
      * intros [H|H]; [lra|]. rewrite H, Rminus_diag, Rabs_R0. lra.
Qed.

(** With an empty history the dynamic threshold is the base threshold;
    otherwise it is 90% of the mean, so scores all in [[lo, hi]] give a
    threshold in [[0.9 lo, 0.9 hi]]. *)
Theorem dynamic_threshold_bounds (historical_scores : list R) (base lo hi : R) :
  Forall (fun s => lo <= s <= hi) historical_scores ->
  (historical_scores = [] -> calculate_dynamic_threshold historical_scores base = base) /\
  (historical_scores <> [] ->
   0.9 * lo <= calculate_dynamic_threshold historical_scores base <= 0.9 * hi).
Proof.
  intros H. split; [intros ->; reflexivity|]. intros Hne.
  destruct historical_scores as [|x l] eqn:E; [congruence|].
  rewrite <- E in *. unfold calculate_dynamic_threshold. rewrite E. cbv zeta. rewrite <- E.
  pose proof (sum_bounds lo hi historical_scores H) as [H1 H2].
  assert (Hn : 0 < INR (List.length historical_scores)) by (rewrite E; apply lt_0_INR; simpl; lia).
  split.
  - apply (Rmult_le_reg_r (INR (List.length historical_scores))); [exact Hn|].
    replace (sum historical_scores / INR (List.length historical_scores) * 0.9 *
             INR (List.length historical_scores)) with (0.9 * sum historical_scores)
      by (field; lra). nra.
  - apply (Rmult_le_reg_r (INR (List.length historical_scores))); [exact Hn|].
    replace (sum historical_scores / INR (List.length historical_scores) * 0.9 *
             INR (List.length historical_scores)) with (0.9 * sum historical_scores)
      by (field; lra). nra.
Qed.

Lemma dynamic_threshold_bounds_witness :
  Forall (fun s => 0.5 <= s <= 1) [0.85; 0.88; 0.78; 0.92] /\
  ([0.85; 0.88; 0.78; 0.92] = [] ->
     calculate_dynamic_threshold [0.85; 0.88; 0.78; 0.92] 0.7 = 0.7) /\
  ([0.85; 0.88; 0.78; 0.92] <> [] ->
     0.9 * 0.5 <= calculate_dynamic_threshold [0.85; 0.88; 0.78; 0.92] 0.7 <= 0.9 * 1).
Proof.
  assert (H : Forall (fun s => 0.5 <= s <= 1) [0.85; 0.88; 0.78; 0.92])
    by (repeat constructor; lra).
  split; [exact H|]. exact (dynamic_threshold_bounds _ 0.7 0.5 1 H).
Defined.

End ScoreFacts.

(* ================================================================= *)
(** * Properties of the complexity engine (complexity.rs) *)
(* ================================================================= *)

Module ComplexityFacts.
Import Complexity.
Local Open Scope R_scope.

Section Engine.
Variable encode_all : list Byte.byte -> Z -> option (list Byte.byte).
Variable parse_file : string -> option (list Item).

Lemma compression_ratio_range (code : string) :
  0 <= calculate_compression_ratio encode_all code <= 1.
Proof.
  unfold calculate_compression_ratio.
  destruct (as_bytes code) as [|b bs] eqn:Hb; [lra|].
  destruct (encode_all (b :: bs) 3) as [c|]; [|lra].
  split; [|apply Rmin_r]. apply Rmin_glb; [|lra].
  unfold Rdiv. apply Rmult_le_pos; [apply pos_INR|]. left. apply Rinv_0_lt_compat.
  apply lt_0_INR. simpl. lia.
Qed.

Lemma rust_semantics_range (code : string) :
  0 <= analyze_rust_semantics parse_file code <= MAX_SEMANTIC_SCORE.
Proof.
  unfold analyze_rust_semantics, MAX_SEMANTIC_SCORE, SEMANTIC_ITEM_WEIGHT.
  destruct (parse_file code) as [items|]; [|lra].
  pose proof (pos_INR (List.length (List.filter is_counted_item items))).
  split; [apply Rmin_glb; lra | apply Rmin_r].
Qed.

End Engine.

Lemma generic_complexity_range (code : string) :
  0 <= analyze_generic_complexity code <= MAX_SEMANTIC_SCORE.
Proof.
  unfold analyze_generic_complexity, MAX_SEMANTIC_SCORE. cbv zeta.
  match goal with |- context [Rmin (INR ?a) (INR ?b * 3)] =>
    pose proof (pos_INR a); pose proof (pos_INR b) end.
  split; [|apply Rmin_r]. apply Rmin_glb; [|lra].
  apply Rmult_le_pos; [apply Rmin_glb|]; lra.
Qed.

(** For any compressor and parser outputs: the entropic cost of an empty
    text is [0]; for a non-empty text it is
    [max(50 * compression_ratio + semantic_score, 1)], which lies in
    [[1, 100]] (the [min(100)] cap never binds, both terms being at
    most [50]). *)
Theorem entropic_cost_spec
    (encode_all : list Byte.byte -> Z -> option (list Byte.byte))
    (parse_file : string -> option (list Item))
    (code : string) (file_path : option Monitor.PathBuf) :
  let ratio := calculate_compression_ratio encode_all code in
  let semantic :=
    if is_rust_file file_path then analyze_rust_semantics parse_file code
    else analyze_generic_complexity code in
  let cost := estimate_entropic_cost encode_all parse_file code file_path in
  (code = ""%string -> cost = 0) /\
  (code <> ""%string -> cost = Rmax (ratio * NCD_MULTIPLIER + semantic) 1 /\ 1 <= cost <= 100).
Proof.
  cbv zeta. unfold estimate_entropic_cost.
  split; [intros ->; reflexivity|]. intros Hne.
  destruct (String.eqb_spec code "") as [E|_]; [contradiction|]. cbv zeta.
  pose proof (compression_ratio_range encode_all code).
  assert (Hs : 0 <= (if is_rust_file file_path then analyze_rust_semantics parse_file code
                     else analyze_generic_complexity code) <= 50).
  { destruct (is_rust_file file_path);
      [apply rust_semantics_range | apply generic_complexity_range]. }
  unfold NCD_MULTIPLIER in *.
  rewrite (Rmin_left _ 100) by lra.
  split; [reflexivity|]. split; [apply Rmax_r|]. apply Rmax_lub; lra.
Qed.

(** [str::trim] on sample texts: U+3000 alone is blank; U+00A0 and
    U+2003 around a word are removed. *)
Lemma trim_samples :
  trim ["227"; "128"; "128"]%char = [] /\
  trim ["194"; "160"; "x"; "226"; "128"; "131"; "010"]%char = ["x"%char].
Proof. vm_compute. split; reflexivity. Qed.

(** Lines of a repeated line. *)
Lemma lines_aux_line (cur l : list Ascii.ascii) (rest : list Ascii.ascii) :
  Forall (fun c => c <> "010"%char) l ->
  lines_aux cur (l ++ "010"%char :: rest) = strip_cr (rev cur ++ l) :: lines_aux [] rest.
Proof.
  revert cur. induction l as [|c l IH]; intros cur Hl.
  - cbn. rewrite app_nil_r. reflexivity.
  - inversion Hl as [|? ? Hc Hl']; subst.
    cbn [app lines_aux]. destruct (Ascii.eqb_spec c "010"%char) as [E|_]; [contradiction|].
    rewrite IH by exact Hl'. cbn [rev]. rewrite <- app_assoc. reflexivity.
Qed.

Lemma strip_cr_no_cr (l : list Ascii.ascii) :
  Forall (fun c => c <> "013"%char) l -> strip_cr l = l.
Proof.
  intros Hl. unfold strip_cr. destruct (rev l) as [|c r] eqn:E; [reflexivity|].
  assert (Hin : In c l) by (apply in_rev; rewrite E; left; reflexivity).
  rewrite List.Forall_forall in Hl. specialize (Hl c Hin).
  destruct (Ascii.eqb_spec c "013"%char); [contradiction|reflexivity].
Qed.

Lemma lines_repeat (l : list Ascii.ascii) (n : nat) :
  Forall (fun c => c <> "010"%char /\ c <> "013"%char) l ->
  lines (String.string_of_list_ascii (concat (repeat (l ++ ["010"%char]) n))) = repeat l n.
Proof.
  intros Hl. unfold lines. rewrite list_ascii_of_string_of_list_ascii.
  assert (H1 : Forall (fun c => c <> "010"%char) l) by (eapply Forall_impl; [exact Hl|]; intros c [? ?]; assumption).
  assert (H2 : Forall (fun c => c <> "013"%char) l) by (eapply Forall_impl; [exact Hl|]; intros c [? ?]; assumption).
  induction n as [|n IH]; [reflexivity|].
  cbn [repeat concat]. rewrite <- app_assoc. cbn [app].
  rewrite lines_aux_line by exact H1. cbn [rev app].
  rewrite strip_cr_no_cr by exact H2. rewrite IH. reflexivity.
Qed.

Lemma list_to_set_repeat (x : string) (k : nat) :
  list_to_set (repeat x (S k)) = ({[x]} : gset string).
Proof.
  induction k as [|k IH].
  - cbn. apply leibniz_equiv. set_solver.
  - change (repeat x (S (S k))) with (x :: repeat x (S k)).
    rewrite list_to_set_cons, IH. apply leibniz_equiv. set_solver.
Qed.

(** Repetition penalty: a text made of one non-blank line (without line
    breaks) repeated [n] times, each copy ended by a newline, has generic
    complexity [2 * min(n, 3)], however long it is. *)
Theorem generic_complexity_repeated_line (l : list Ascii.ascii) (n : nat) :
  Forall (fun c => c <> "010"%char /\ c <> "013"%char) l ->
  trim l <> [] ->
  analyze_generic_complexity
    (String.string_of_list_ascii (concat (repeat (l ++ ["010"%char]) n))) =
  2 * INR (Nat.min n 3).
Proof.
  intros Hl Ht. unfold analyze_generic_complexity. rewrite lines_repeat by exact Hl.
  replace (List.filter (fun l0 => match trim l0 with [] => false | _ :: _ => true end)
             (repeat l n)) with (repeat l n).
  2:{ destruct (trim l) as [|c r] eqn:E; [congruence|].
      induction n as [|n IH]; [reflexivity|]. cbn [repeat List.filter].
      rewrite E, <- IH. reflexivity. }
  rewrite repeat_length, map_repeat. unfold MAX_SEMANTIC_SCORE.
  destruct n as [|k].
  - cbn [repeat list_to_set]. rewrite size_empty. simpl. unfold Rmin.
    destruct (Rle_dec 0 (0 * 3)); destruct (Rle_dec _ 50); lra.
  - rewrite list_to_set_repeat, size_singleton, INR_1, Rmult_1_l.
    destruct (Nat.le_gt_cases (S k) 3) as [Hle|Hgt].
    + rewrite Nat.min_l by exact Hle.
      assert (INR (S k) <= 3) by (replace 3 with (INR 3) by (simpl; lra); apply le_INR; exact Hle).
      pose proof (pos_INR (S k)).
      rewrite (Rmin_left (INR (S k))) by lra.
      rewrite Rmin_left by lra. ring.
    + rewrite Nat.min_r by lia.
      assert (3 < INR (S k)) by (replace 3 with (INR 3) by (simpl; lra); apply lt_INR; exact Hgt).
      rewrite (Rmin_right (INR (S k))) by lra.
      rewrite Rmin_left by lra. simpl. ring.
Qed.

Lemma generic_complexity_repeated_line_witness :
  Forall (fun c => c <> "010"%char /\ c <> "013"%char) (String.list_ascii_of_string "// TODO") /\
  trim (String.list_ascii_of_string "// TODO") <> [] /\
  analyze_generic_complexity
    (String.string_of_list_ascii
       (concat (repeat (String.list_ascii_of_string "// TODO" ++ ["010"%char]) 100))) =
  2 * INR (Nat.min 100 3).
Proof.
  assert (H1 : Forall (fun c => c <> "010"%char /\ c <> "013"%char)
                 (String.list_ascii_of_string "// TODO"))
    by (repeat constructor; discriminate).
  assert (H2 : trim (String.list_ascii_of_string "// TODO") <> []) by (vm_compute; discriminate).
  split; [exact H1|]. split; [exact H2|].
  exact (generic_complexity_repeated_line _ 100 H1 H2).
Defined.

End ComplexityFacts.

(* ================================================================= *)
(** * Properties of the focus tracker (focus_session.rs) *)
(* ================================================================= *)

Module FocusFacts.
Import Focus Focus.Metrics.
Local Open Scope R_scope.

(** ** Folds over the per-file maps *)

Section Fold.
Context {B : Type} (f : string -> B -> B -> B) (b : B).
Hypothesis f_comm : forall j1 j2 z1 z2 y, f j1 z1 (f j2 z2 y) = f j2 z2 (f j1 z1 y).

Lemma map_fold_insert_any (i : string) (x : B) (m : gmap string B) :
  map_fold f b (<[i:=x]> m) = f i x (map_fold f b (delete i m)).
Proof.
  rewrite <- insert_delete_eq. apply map_fold_insert_L.
  - intros; apply f_comm.
  - apply lookup_delete_eq.
Qed.

Lemma map_fold_at (i : string) (z : B) (m : gmap string B) :
  (forall y, f i z y = y) ->
  map_fold f b m = f i (default z (m !! i)) (map_fold f b (delete i m)).
Proof.
  intros Hz. destruct (m !! i) as [x|] eqn:E; cbn [default].
  - apply map_fold_delete_L; [intros; apply f_comm | exact E].
  - rewrite Hz, delete_id by exact E. reflexivity.
Qed.
End Fold.

Lemma focus_minutes_nonneg (now : R) (s : FocusSession) : 0 <= focus_minutes now s.
Proof.
  unfold focus_minutes, duration. destruct (Rle_dec (started_at s) now); lra.
Qed.

Lemma focus_minutes_start (now : R) (fp : option string) :
  focus_minutes now (session_new fp now) = 0.
Proof.
  unfold focus_minutes, duration. cbn [started_at session_new].
  destruct (Rle_dec now now); lra.
Qed.

(** [PathBuf] equality on sample paths: repeated and trailing separators
    and inner ["."] are not components; a leading ["."] and [".."] are. *)
Lemma pathbuf_from_samples :
  pathbuf_from "/a//b" = "/a/b"%string /\ pathbuf_from "/a/b/" = "/a/b"%string /\
  pathbuf_from "/a/./b" = "/a/b"%string /\ pathbuf_from "./a" = "./a"%string /\
  pathbuf_from "a" = "a"%string /\ pathbuf_from "a/../b" = "a/../b"%string /\
  pathbuf_from "/" = "/"%string /\ pathbuf_from "" = ""%string.
Proof. vm_compute. repeat split. Qed.

(** ** What each operation changes *)

Ltac step_cases :=
  cbn [tracker_step];
  unfold focus_gained, focus_lost, finalize_current_session, edit_burst, navigation,
    heartbeat, mark_as_productive, reset, set_session, set_unique, set_cumulative;
  repeat match goal with
         | |- context [match current_session ?t with _ => _ end] =>
             destruct (current_session t) as [[[?|] ? ? ? ?]|]
         | |- context [match ?fp with Some _ => _ | None => _ end] =>
             is_var fp; destruct fp
         | |- context [option_map _ ?fp] => is_var fp; destruct fp
         end; cbn.

Lemma productive_step (op : TrackerOp) (t : FocusTracker) :
  productive_files (tracker_step op t) =
  match op with
  | OpMarkProductive p => {[pathbuf_from p]} ∪ productive_files t
  | _ => productive_files t
  end.
Proof. destruct op; step_cases; reflexivity. Qed.

Lemma nav_accum_step (op : TrackerOp) (t : FocusTracker) :
  file_nav_accum (tracker_step op t) =
  match op with
  | OpNavigation p _ =>
      <[pathbuf_from p := S (default 0%nat (file_nav_accum t !! pathbuf_from p))]>
        (file_nav_accum t)
  | _ => file_nav_accum t
  end.
Proof. destruct op; step_cases; reflexivity. Qed.

Lemma nav_timestamps_step (op : TrackerOp) (t : FocusTracker) :
  nav_timestamps (tracker_step op t) =
  match op with
  | OpNavigation _ ts =>
      let l := nav_timestamps t ++ [INR ts] in
      if Nat.ltb 100 (List.length l) then tail l else l
  | _ => nav_timestamps t
  end.
Proof. destruct op; step_cases; reflexivity. Qed.

Lemma edit_counts_step (op : TrackerOp) (t : FocusTracker) :
  is_reset op = false ->
  edit_burst_count (cumulative (tracker_step op t)) =
    (edit_burst_count (cumulative t) + List.length (edit_deltas [op]))%nat /\
  chars_edited_net (cumulative (tracker_step op t)) =
    fold_left (fun acc d => wrap_i64 (acc + d)) (edit_deltas [op])
      (chars_edited_net (cumulative t)).
Proof.
  intros Hr. destruct op; try discriminate Hr; step_cases; split; try reflexivity; lia.
Qed.

Lemma focus_accum_nonneg_step (op : TrackerOp) (t : FocusTracker) :
  map_Forall (fun _ v => 0 <= v) (file_focus_accum t) ->
  map_Forall (fun _ v => 0 <= v) (file_focus_accum (tracker_step op t)).
Proof.
  intros H. destruct op; step_cases; try exact H;
    apply map_Forall_insert_2; try exact H;
    (pose proof (focus_minutes_nonneg now);
     match goal with
     | |- 0 <= default 0 (?m !! ?p) + ?x =>
         destruct (m !! p) as [v|] eqn:E; cbn [default];
         [pose proof (H _ _ E) | ]
     end; unfold focus_minutes, duration in *; cbn in *;
     match goal with |- context [Rle_dec ?a ?b] => destruct (Rle_dec a b) end; lra).
Qed.

Lemma productive_run (t : FocusTracker) (ops : list TrackerOp) :
  productive_files (run_from t ops) =
  (list_to_set (map pathbuf_from (marked_paths ops)) : gset string) ∪ productive_files t.
Proof.
  revert t. induction ops as [|op ops IH]; intros t; cbn [run_from fold_left].
  - apply leibniz_equiv. set_solver.
  - change (fold_left (fun t op => tracker_step op t) ops (tracker_step op t))
      with (run_from (tracker_step op t) ops).
    rewrite IH, productive_step. apply leibniz_equiv.
    destruct op; cbn [marked_paths flat_map]; simpl; set_solver.
Qed.

Lemma nav_fold_step (P : gset string) (op : TrackerOp) (t : FocusTracker) :
  map_fold (fun path nav acc => if bool_decide (path ∈ P) then (acc + nav)%nat else acc)
    0%nat (file_nav_accum (tracker_step op t)) =
  (map_fold (fun path nav acc => if bool_decide (path ∈ P) then (acc + nav)%nat else acc)
     0%nat (file_nav_accum t) +
   List.length (List.filter (fun p => bool_decide (pathbuf_from p ∈ P)) (navigated_paths [op])))%nat.
Proof.
  rewrite nav_accum_step. destruct op; cbn [navigated_paths flat_map List.filter app];
    cbn [List.length]; try lia.
  set (f := fun path nav acc => if bool_decide (path ∈ P) then (acc + nav)%nat else acc).
  assert (Hc : forall j1 j2 z1 z2 y, f j1 z1 (f j2 z2 y) = f j2 z2 (f j1 z1 y)).
  { intros. unfold f. destruct (bool_decide (j1 ∈ P)), (bool_decide (j2 ∈ P)); lia. }
  rewrite (map_fold_insert_any f 0%nat Hc).
  rewrite (map_fold_at f 0%nat Hc (pathbuf_from path) 0%nat (file_nav_accum t))
    by (intros y; unfold f; destruct (bool_decide (pathbuf_from path ∈ P)); lia).
  unfold f. destruct (bool_decide (pathbuf_from path ∈ P)); cbn [List.length]; lia.
Qed.

Lemma nav_fold_run (P : gset string) (t : FocusTracker) (ops : list TrackerOp) :
  map_fold (fun path nav acc => if bool_decide (path ∈ P) then (acc + nav)%nat else acc)
    0%nat (file_nav_accum (run_from t ops)) =
  (map_fold (fun path nav acc => if bool_decide (path ∈ P) then (acc + nav)%nat else acc)
     0%nat (file_nav_accum t) +
   List.length (List.filter (fun p => bool_decide (pathbuf_from p ∈ P)) (navigated_paths ops)))%nat.
Proof.
  revert t. induction ops as [|op ops IH]; intros t; cbn [run_from fold_left].
  - cbn. lia.
  - change (fold_left (fun t op => tracker_step op t) ops (tracker_step op t))
      with (run_from (tracker_step op t) ops).
    rewrite IH, nav_fold_step.
    replace (navigated_paths (op :: ops)) with (navigated_paths [op] ++ navigated_paths ops)
      by (unfold navigated_paths; cbn [flat_map]; rewrite app_nil_r; reflexivity).
    rewrite List.filter_app, List.length_app. lia.
Qed.

Lemma filter_list_to_set (l : list string) (ps : list string) :
  List.filter (fun p => bool_decide (p ∈ (list_to_set l : gset string))) ps =
  List.filter (fun p => bool_decide (p ∈ l)) ps.
Proof.
  apply List.filter_ext. intros p. apply bool_decide_ext. apply elem_of_list_to_set.
Qed.

Lemma skipn_S_tl {A} (k : nat) (l : list A) : skipn (S k) l = tail (skipn k l).
Proof.
  revert k. induction l as [|a l IH]; intros k; [destruct k; reflexivity|].
  destruct k; [reflexivity|]. cbn [skipn]. apply IH.
Qed.

Lemma lastn_snoc {A} (n : nat) (l : list A) (x : A) :
  (0 < n)%nat ->
  lastn n (l ++ [x]) =
  let ts := lastn n l ++ [x] in if Nat.ltb n (List.length ts) then tail ts else ts.
Proof.
  intros Hn. unfold lastn. cbv zeta. rewrite List.length_app. cbn [List.length].
  destruct (Nat.le_gt_cases (List.length l) n) as [Hle|Hgt].
  - assert (E1 : (List.length l - n = 0)%nat) by lia.
    rewrite E1, List.skipn_0.
    destruct (Nat.le_gt_cases (List.length l + 1) n) as [Hle'|Hgt'].
    + replace (List.length l + 1 - n)%nat with 0%nat by lia. rewrite List.skipn_0.
      rewrite List.length_app. cbn [List.length].
      destruct (Nat.ltb_spec n (List.length l + 1)); [lia|reflexivity].
    + replace (List.length l + 1 - n)%nat with 1%nat by lia.
      rewrite List.length_app. cbn [List.length].
      destruct (Nat.ltb_spec n (List.length l + 1)); [|lia].
      rewrite (skipn_S_tl 0). reflexivity.
  - replace (List.length l + 1 - n)%nat with (S (List.length l - n)) by lia.
    rewrite List.skipn_app, List.length_app, List.length_skipn. cbn [List.length].
    replace (S (List.length l - n) - List.length l)%nat with 0%nat by lia.
    rewrite List.skipn_0.
    destruct (Nat.ltb_spec n (List.length l - (List.length l - n) + 1)); [|lia].
    rewrite skipn_S_tl.
    destruct (skipn (List.length l - n) l) as [|a r] eqn:E.
    + apply (f_equal (@List.length A)) in E. rewrite List.length_skipn in E.
      cbn in E. lia.
    + reflexivity.
Qed.

(** Navigation timestamps form a sliding window: after any sequence of
    tracker operations started from [FocusTracker::new()], [nav_timestamps]
    holds exactly the [timestamp_ms] of the last 100 [navigation] calls,
    oldest first; [reset] and the other operations never touch it. *)
Theorem nav_timestamps_window (ops : list TrackerOp) :
  nav_timestamps (run_tracker ops) = lastn 100 (nav_stamps ops) /\
  (List.length (nav_timestamps (run_tracker ops)) <= 100)%nat.
Proof.
  assert (E : nav_timestamps (run_tracker ops) = lastn 100 (nav_stamps ops)).
  { induction ops as [|op ops IH] using rev_ind; [reflexivity|].
    unfold run_tracker in *. rewrite fold_left_app. cbn [fold_left].
    rewrite nav_timestamps_step.
    unfold nav_stamps in *. rewrite flat_map_app.
    destruct op; cbn [flat_map app]; rewrite ?app_nil_r; try exact IH.
    rewrite IH. rewrite (lastn_snoc 100) by lia. reflexivity. }
  split; [exact E|]. rewrite E. unfold lastn. rewrite List.length_skipn. lia.
Qed.

Lemma focus_accum_nonneg_run (t : FocusTracker) (ops : list TrackerOp) :
  map_Forall (fun _ v => 0 <= v) (file_focus_accum t) ->
  map_Forall (fun _ v => 0 <= v) (file_focus_accum (run_from t ops)).
Proof.
  revert t. induction ops as [|op ops IH]; intros t H; [exact H|].
  apply (IH (tracker_step op t)). apply focus_accum_nonneg_step. exact H.
Qed.

Lemma focus_fold_nonneg (P : gset string) (m : gmap string R) :
  map_Forall (fun _ v => 0 <= v) m ->
  0 <= map_fold (fun path mins acc => if bool_decide (path ∈ P) then acc + mins else acc) 0 m.
Proof.
  revert m.
  refine (map_fold_weak_ind (fun r m => map_Forall (fun _ v => 0 <= v) m -> 0 <= r) _ _ _ _).
  - intros _. lra.
  - intros i x m r Hi IH Hm. apply map_Forall_insert in Hm as [Hx Hm]; [|exact Hi].
    specialize (IH Hm). destruct (bool_decide (i ∈ P)); lra.
Qed.

(** Focus minutes are never negative: whatever the order of operations and
    the clock readings (a session whose start lies after [now] counts
    [Duration::ZERO]), [get_metrics] reports [total_focus_mins >= 0]. *)
Theorem total_focus_mins_nonneg (ops : list TrackerOp) (now : R) :
  0 <= total_focus_mins (get_metrics now (run_tracker ops)).
Proof.
  pose proof (focus_accum_nonneg_run tracker_new ops (map_Forall_empty _)) as Hinv.
  change (run_from tracker_new ops) with (run_tracker ops) in Hinv.
  pose proof (focus_fold_nonneg (productive_files (run_tracker ops)) _ Hinv).
  unfold get_metrics. cbn [total_focus_mins].
  destruct (current_session (run_tracker ops)) as [s|]; [|exact H].
  destruct (file_path s); [|exact H].
  destruct (bool_decide _); [|exact H].
  pose proof (focus_minutes_nonneg now s). lra.
Qed.

(** Navigation events are counted per productive file: after any sequence
    of operations from [FocusTracker::new()], [get_metrics] reports as
    [navigation_events] exactly the number of [navigation] calls on paths
    equal (as [PathBuf]s, i.e. by components) to a path passed to
    [mark_as_productive] at some point (before or after the navigation,
    [reset] notwithstanding), and as [unique_files] the number of distinct
    [PathBuf]s so marked. *)
Theorem navigation_events_count (ops : list TrackerOp) (now : R) :
  navigation_events (get_metrics now (run_tracker ops)) =
    List.length (List.filter
      (fun p => bool_decide (pathbuf_from p ∈ map pathbuf_from (marked_paths ops)))
      (navigated_paths ops)) /\
  unique_files (get_metrics now (run_tracker ops)) =
    size (list_to_set (map pathbuf_from (marked_paths ops)) : gset string).
Proof.
  pose proof (productive_run tracker_new ops) as HP.
  change (run_from tracker_new ops) with (run_tracker ops) in HP.
  cbn [productive_files tracker_new] in HP.
  replace (list_to_set (map pathbuf_from (marked_paths ops)) ∪ ∅ : gset string)
    with (list_to_set (map pathbuf_from (marked_paths ops)) : gset string) in HP
    by (apply leibniz_equiv; set_solver).
  unfold get_metrics. cbn [navigation_events unique_files]. rewrite HP.
  split; [|reflexivity].
  pose proof (nav_fold_run (list_to_set (map pathbuf_from (marked_paths ops)))
                tracker_new ops) as E.
  change (run_from tracker_new ops) with (run_tracker ops) in E.
  rewrite E. cbn [file_nav_accum tracker_new]. rewrite map_fold_empty.
  cbn [Nat.add]. apply f_equal, List.filter_ext. intros p.
  apply bool_decide_ext. apply elem_of_list_to_set.
Qed.

(** Edit counters count since the last [reset]: after [reset] and any
    sequence of further operations without [reset], [get_metrics] reports
    as [edit_burst_count] the number of [edit_burst] calls and as
    [chars_edited_net] their [chars_delta] summed with [i64] wrap-around;
    focus changes, navigation, heartbeats and productivity marks leave both
    counters alone. *)
Theorem edit_counts_since_reset (t : FocusTracker) (ops : list TrackerOp) (now : R) :
  Forall (fun op => is_reset op = false) ops ->
  edit_burst_count (get_metrics now (run_from (reset t) ops)) = List.length (edit_deltas ops) /\
  chars_edited_net (get_metrics now (run_from (reset t) ops)) =
    fold_left (fun acc d => wrap_i64 (acc + d)) (edit_deltas ops) 0%Z.
Proof.
  intros Hops. unfold get_metrics. cbn [edit_burst_count chars_edited_net].
  change 0%Z with (chars_edited_net (cumulative (reset t))).
  change (List.length (edit_deltas ops))
    with (edit_burst_count (cumulative (reset t)) + List.length (edit_deltas ops))%nat.
  generalize (reset t). induction Hops as [|op ops Hop Hops IH]; intros u.
  - cbn. split; [lia|reflexivity].
  - cbn [run_from fold_left].
    change (fold_left (fun t op => tracker_step op t) ops (tracker_step op u))
      with (run_from (tracker_step op u) ops).
    destruct (IH (tracker_step op u)) as [IH1 IH2].
    destruct (edit_counts_step op u Hop) as [E1 E2].
    replace (edit_deltas (op :: ops)) with (edit_deltas [op] ++ edit_deltas ops)
      by (unfold edit_deltas; cbn [flat_map]; rewrite app_nil_r; reflexivity).
    rewrite List.length_app, fold_left_app, <- E2, <- IH2. split; [lia|reflexivity].
Qed.

Lemma edit_counts_since_reset_witness :
  Forall (fun op => is_reset op = false)
    [OpFocusGained 0 (Some "/a.rs"%string); OpEditBurst 1 "/a.rs" 50;
     OpNavigation "/a.rs" 2; OpEditBurst 3 "/a.rs" (-10)] /\
  edit_burst_count (get_metrics 4 (run_from (reset tracker_new)
    [OpFocusGained 0 (Some "/a.rs"%string); OpEditBurst 1 "/a.rs" 50;
     OpNavigation "/a.rs" 2; OpEditBurst 3 "/a.rs" (-10)])) =
    List.length (edit_deltas
      [OpFocusGained 0 (Some "/a.rs"%string); OpEditBurst 1 "/a.rs" 50;
       OpNavigation "/a.rs" 2; OpEditBurst 3 "/a.rs" (-10)]) /\
  chars_edited_net (get_metrics 4 (run_from (reset tracker_new)
    [OpFocusGained 0 (Some "/a.rs"%string); OpEditBurst 1 "/a.rs" 50;
     OpNavigation "/a.rs" 2; OpEditBurst 3 "/a.rs" (-10)])) =
    fold_left (fun acc d => wrap_i64 (acc + d))
      (edit_deltas [OpFocusGained 0 (Some "/a.rs"%string); OpEditBurst 1 "/a.rs" 50;
                    OpNavigation "/a.rs" 2; OpEditBurst 3 "/a.rs" (-10)]) 0%Z.
Proof.
  assert (H : Forall (fun op => is_reset op = false)
    [OpFocusGained 0 (Some "/a.rs"%string); OpEditBurst 1 "/a.rs" 50;
     OpNavigation "/a.rs" 2; OpEditBurst 3 "/a.rs" (-10)])
    by (repeat constructor).
  split; [exact H|]. exact (edit_counts_since_reset tracker_new _ 4 H).
Defined.

(** Closing a session does not change the reported metrics at that
    instant: [focus_lost] moves the running session's minutes into
    [file_focus_accum] of its file, and [focus_gained] does the same and
    starts a session of zero length, so [get_metrics] at the same [now]
    gives the same result before and after either call. *)
Theorem get_metrics_focus_change (now : R) (fp : option string) (t : FocusTracker) :
  get_metrics now (focus_lost now t) = get_metrics now t /\
  get_metrics now (focus_gained now fp t) = get_metrics now t.
Proof.
  assert (Hlost : get_metrics now (focus_lost now t) = get_metrics now t).
  { unfold focus_lost, finalize_current_session.
    destruct (current_session t) as [s|] eqn:Hs; [|reflexivity].
    unfold get_metrics. rewrite Hs. cbn -[map_fold].
    destruct (file_path s) as [p|]; [|f_equal; ring].
    set (P := productive_files t).
    set (f := fun path mins acc => if bool_decide (path ∈ P) then acc + mins else acc).
    assert (Hc : forall j1 j2 z1 z2 y, f j1 z1 (f j2 z2 y) = f j2 z2 (f j1 z1 y)).
    { intros. unfold f. destruct (bool_decide (j1 ∈ P)), (bool_decide (j2 ∈ P)); ring. }
    rewrite (map_fold_insert_any f 0 Hc).
    rewrite (map_fold_at f 0 Hc p 0 (file_focus_accum t))
      by (intros y; unfold f; destruct (bool_decide (p ∈ P)); ring).
    f_equal. unfold f. destruct (bool_decide (p ∈ P)); ring. }
  split; [exact Hlost|]. rewrite <- Hlost.
  unfold focus_gained. fold (focus_lost now t).
  assert (Hn : current_session (focus_lost now t) = None).
  { unfold focus_lost, finalize_current_session.
    destruct (current_session t) eqn:E; [reflexivity|exact E]. }
  unfold get_metrics. rewrite Hn.
  destruct fp as [p|]; cbn -[map_fold]; [|reflexivity].
  rewrite focus_minutes_start, Rplus_0_r.
  destruct (bool_decide _); reflexivity.
Qed.

End FocusFacts.

(* ================================================================= *)
(** * Properties of the path handling and of the debouncer (monitor.rs) *)
(* ================================================================= *)

Module MonitorFacts.
Import Monitor.
Local Open Scope Z_scope.

(** ** [normalize_rel] *)

Lemma norm_step_normals (l acc : list string) :
  fold_left (fun out c =>
         match c with
         | CurDir => out
         | ParentDir => tail out
         | Normal s => s :: out
         | RootDir => out
         end) (map Normal l) acc = rev l ++ acc.
Proof.
  revert acc. induction l as [|s l IH]; intros acc; [reflexivity|].
  cbn [map fold_left]. rewrite IH. cbn [rev]. rewrite <- app_assoc. reflexivity.
Qed.

(** Lexical normalization composes and is idempotent: normalizing [p ++ q]
    is normalizing [q] after the already normalized [p], and a path made
    only of [Normal] components is left as it is. In particular a [..] that
    would climb above the start is dropped, whatever follows. *)
Theorem normalize_rel_compose (p q : list Component) (l : list string) :
  normalize_rel (p ++ q) = normalize_rel (map Normal (normalize_rel p) ++ q) /\
  normalize_rel (map Normal l) = l.
Proof.
  unfold normalize_rel. split.
  - rewrite !fold_left_app, norm_step_normals, rev_involutive, app_nil_r. reflexivity.
  - rewrite norm_step_normals, app_nil_r, rev_involutive. reflexivity.
Qed.

(** ** [Path::extension] and [is_rust_file] *)

Lemma split_last_dot_rev_none (r after : list Ascii.ascii) :
  ~ In "."%char r -> split_last_dot_rev r after = None.
Proof.
  revert after. induction r as [|c r IH]; intros after Hr; [reflexivity|].
  cbn [split_last_dot_rev]. destruct (Ascii.eqb_spec c "."%char) as [E|_].
  - subst. exfalso. apply Hr. left. reflexivity.
  - apply IH. intros Hin. apply Hr. right. exact Hin.
Qed.

Lemma split_last_dot_rev_dot (r rs after : list Ascii.ascii) :
  ~ In "."%char r ->
  split_last_dot_rev (r ++ "."%char :: rs) after = Some (rev rs, rev r ++ after).
Proof.
  revert after. induction r as [|c r IH]; intros after Hr; [reflexivity|].
  cbn [app split_last_dot_rev]. destruct (Ascii.eqb_spec c "."%char) as [E|_].
  - subst. exfalso. apply Hr. left. reflexivity.
  - rewrite IH by (intros Hin; apply Hr; right; exact Hin).
    cbn [rev]. rewrite <- app_assoc. reflexivity.
Qed.

Lemma split_last_dot_rev_some (r after b a : list Ascii.ascii) :
  split_last_dot_rev r after = Some (b, a) -> rev r ++ after = b ++ "."%char :: a.
Proof.
  revert after. induction r as [|c r IH]; intros after H; [discriminate|].
  cbn [split_last_dot_rev] in H. cbn [rev]. rewrite <- app_assoc.
  destruct (Ascii.eqb_spec c "."%char) as [E|_].
  - injection H as <- <-. subst c. reflexivity.
  - exact (IH _ H).
Qed.

Lemma list_ascii_rs_len (stem : list Ascii.ascii) :
  String.string_of_list_ascii (stem ++ ["."%char; "r"%char; "s"%char]) <> ".."%string.
Proof.
  intros E. apply (f_equal String.list_ascii_of_string) in E.
  rewrite String.list_ascii_of_string_of_list_ascii in E.
  apply (f_equal (@List.length _)) in E. rewrite List.length_app in E. cbn in E. lia.
Qed.

(** [is_rust_file] holds exactly for the paths whose file name is a
    non-empty stem followed by [.rs]: a hidden file named [.rs], a name
    without a dot, or a name ending in [.RS] or [.rs.bak] is not Rust. *)
Theorem is_rust_file_iff (dir : list string) (name : list Ascii.ascii) :
  Complexity.is_rust_file (Some (dir ++ [String.string_of_list_ascii name])) = true <->
  exists stem, stem <> [] /\ name = stem ++ ["."%char; "r"%char; "s"%char].
Proof.
  unfold Complexity.is_rust_file, extension. rewrite last_snoc. unfold file_extension.
  rewrite String.list_ascii_of_string_of_list_ascii. split.
  - destruct (String.eqb_spec (String.string_of_list_ascii name) "..") as [_|_];
      [discriminate|].
    destruct (split_last_dot_rev (rev name) []) as [[b a]|] eqn:E; [|discriminate].
    destruct b as [|c b]; [discriminate|].
    intros Hrs. apply String.eqb_eq in Hrs.
    apply split_last_dot_rev_some in E. rewrite rev_involutive, app_nil_r in E.
    apply (f_equal String.list_ascii_of_string) in Hrs.
    rewrite String.list_ascii_of_string_of_list_ascii in Hrs. subst.
    exists (c :: b). split; [discriminate|reflexivity].
  - intros [stem [Hs ->]].
    destruct (String.eqb_spec (String.string_of_list_ascii
               (stem ++ ["."%char; "r"%char; "s"%char])) "..") as [E|_].
    { exfalso. exact (list_ascii_rs_len stem E). }
    rewrite rev_app_distr.
    change (rev ["."%char; "r"%char; "s"%char]) with (["s"%char; "r"%char] ++ ["."%char]).
    rewrite <- app_assoc. cbn [app].
    pose proof (split_last_dot_rev_dot ["s"%char; "r"%char] (rev stem) [])
      as Hsp. cbn [app rev] in Hsp.
    rewrite Hsp by (cbn; intros [H|[H|[]]]; discriminate).
    rewrite rev_involutive. destruct stem; [contradiction|reflexivity].
Qed.

(** ** What the debouncer's decisions rest on *)

Lemma should_emit_spec (d : Debouncer) (path : PathBuf) (k : EditKind) (ts : Z)
    (ok : bool) (d1 : Debouncer) :
  should_emit d path k ts = (ok, d1) ->
  window_us d1 = window_us d /\
  (k = Delete -> ok = true) /\
  (ok = false -> exists prev, last_emit_us d !! path = Some prev /\
                              sat_sub ts prev < window_us d) /\
  (forall q v, last_emit_us d1 !! q = Some v ->
     last_emit_us d !! q = Some v \/ (ok = true /\ k <> Delete /\ q = path /\ v = ts)).
Proof.
  unfold should_emit. intros H.
  destruct (EditKind_eqb k Delete) eqn:Ek.
  { injection H as <- <-. split; [reflexivity|]. split; [reflexivity|].
    split; [discriminate|]. intros q v Hq. left. exact Hq. }
  assert (Hk : k <> Delete) by (intros ->; discriminate).
  destruct (last_emit_us d !! path) as [prev|] eqn:Hl; injection H as <- <-;
    cbn [window_us last_emit_us]; (split; [reflexivity|]); (split; [intros; contradiction|]).
  - split.
    + intros Hf. exists prev. split; [reflexivity|].
      apply negb_false_iff, Z.ltb_lt in Hf. exact Hf.
    + intros q v Hq.
      match type of Hq with
      | (if ?c then _ else _) !! _ = Some _ =>
          destruct c; [apply map_lookup_filter_Some in Hq as [Hq _]|]
      end;
      (destruct (negb (sat_sub ts prev <? window_us d)) eqn:Ea;
       [apply lookup_insert_Some in Hq as [[<- <-]|[_ Hq]];
        [right; tauto | left; exact Hq] | left; exact Hq]).
  - split; [discriminate|].
    intros q v Hq.
    match type of Hq with
    | (if ?c then _ else _) !! _ = Some _ =>
        destruct c; [apply map_lookup_filter_Some in Hq as [Hq _]|]
    end;
    (apply lookup_insert_Some in Hq as [[<- <-]|[_ Hq]];
     [right; tauto | left; exact Hq]).
Qed.

Lemma suppressed_cause_run (w : Z) (d : Debouncer) (H : list (RawEvent * bool))
    (evs : list RawEvent) (pre : list (RawEvent * bool)) (e : RawEvent)
    (post : list (RawEvent * bool)) :
  window_us d = w ->
  (forall q v, last_emit_us d !! q = Some v ->
     exists e', In (e', true) H /\ rel_path e' = q /\ kind e' <> Delete /\
                timestamp_us e' = v) ->
  debounce_decisions d evs = pre ++ (e, false) :: post ->
  kind e <> Delete /\
  exists e', In (e', true) (H ++ pre) /\ rel_path e' = rel_path e /\
             kind e' <> Delete /\ sat_sub (timestamp_us e) (timestamp_us e') < w.
Proof.
  revert d H pre. induction evs as [|e0 evs IH]; intros d H pre Hw Hinv Hdec.
  { destruct pre; discriminate. }
  cbn [debounce_decisions] in Hdec.
  destruct (should_emit d (rel_path e0) (kind e0) (timestamp_us e0)) as [ok d1] eqn:Hse.
  destruct (should_emit_spec _ _ _ _ _ _ Hse) as [Hw1 [Hdel [Hsup Hent]]].
  destruct pre as [|p0 pre].
  - injection Hdec as He Hok _. subst e0 ok.
    split; [intros Hk; specialize (Hdel Hk); discriminate|].
    destruct (Hsup eq_refl) as [prev [Hl Hlt]].
    destruct (Hinv _ _ Hl) as [e' [Hin [Hp [Hk' Ht]]]].
    exists e'. rewrite app_nil_r. repeat split; try assumption. rewrite Ht, <- Hw. exact Hlt.
  - injection Hdec as <- Hdec.
    replace (H ++ (e0, ok) :: pre) with ((H ++ [(e0, ok)]) ++ pre)
      by (rewrite <- app_assoc; reflexivity).
    apply (IH d1 (H ++ [(e0, ok)]) pre); [congruence| |exact Hdec].
    intros q v Hq. destruct (Hent q v Hq) as [Hq0|[-> [Hk [-> ->]]]].
    + destruct (Hinv _ _ Hq0) as [e' [Hin Rest]]. exists e'.
      split; [apply in_or_app; left; exact Hin | exact Rest].
    + exists e0. split; [apply in_or_app; right; left; reflexivity|]. tauto.
Qed.

(** Every suppression has a cause: whatever the timestamps (also when the
    clock steps back), an event the debouncer drops is a Create/Modify,
    and an earlier Create/Modify on the same path was emitted less than a
    window before it ([saturating_sub] of the timestamps below the window). *)
Theorem suppressed_has_cause (w : Z) (evs : list RawEvent)
    (pre : list (RawEvent * bool)) (e : RawEvent) (post : list (RawEvent * bool)) :
  debounce_decisions (new w) evs = pre ++ (e, false) :: post ->
  kind e <> Delete /\
  exists e', In (e', true) pre /\ rel_path e' = rel_path e /\
             kind e' <> Delete /\ sat_sub (timestamp_us e) (timestamp_us e') < w.
Proof.
  intros Hdec.
  apply (suppressed_cause_run w (new w) [] evs pre e post eq_refl); [|exact Hdec].
  intros q v Hq. cbn [new last_emit_us] in Hq. rewrite lookup_empty in Hq. discriminate.
Qed.

Lemma suppressed_has_cause_witness :
  debounce_decisions (new 120000) s4_events =
    [(mkRaw ["x"%string] 0 Create, true)] ++
    (mkRaw ["x"%string] 50000 Modify, false) :: [(mkRaw ["x"%string] 60000 Delete, true)] /\
  kind (mkRaw ["x"%string] 50000 Modify) <> Delete /\
  exists e', In (e', true) [(mkRaw ["x"%string] 0 Create, true)] /\
    rel_path e' = rel_path (mkRaw ["x"%string] 50000 Modify) /\ kind e' <> Delete /\
    sat_sub (timestamp_us (mkRaw ["x"%string] 50000 Modify)) (timestamp_us e') < 120000.
Proof.
  assert (H : debounce_decisions (new 120000) s4_events =
    [(mkRaw ["x"%string] 0 Create, true)] ++
    (mkRaw ["x"%string] 50000 Modify, false) :: [(mkRaw ["x"%string] 60000 Delete, true)])
    by (vm_compute; reflexivity).
  split; [exact H|]. exact (suppressed_has_cause _ _ _ _ _ H).
Defined.

(** ** The whole pipeline *)

Lemma debounce_run_sub (d : Debouncer) (evs : list RawEvent) (e : RawEvent) :
  In e (fst (debounce_run d evs)) -> In e evs.
Proof.
  revert d. induction evs as [|e0 evs IH]; intros d H; [exact H|].
  cbn [debounce_run] in H.
  destruct (should_emit d (rel_path e0) (kind e0) (timestamp_us e0)) as [ok d1].
  destruct (debounce_run d1 evs) as [out d2] eqn:Er.
  assert (Hout : In e out -> In e evs)
    by (intros Hx; apply (IH d1); rewrite Er; exact Hx).
  destruct ok; cbn [fst] in H.
  - destruct H as [<-|H]; [left; reflexivity | right; apply Hout; exact H].
  - right. apply Hout. exact H.
Qed.

(** The pipeline only ever hands downstream events on watched paths: every
    event leaving the debouncer comes from a watcher input with the same
    timestamp and kind, its path is the lexical normalization of that
    input's relative path, and the configured filter does not ignore it. *)
Theorem pipeline_emits_only_watched (cfg : MonitorConfig)
    (inputs : list (list Component * Z * EditKind)) (e : RawEvent) :
  In e (monitor_pipeline cfg inputs) ->
  should_ignore (rel_path e) (ignore_top_level_dirs cfg) (ignore_extensions cfg) = false /\
  exists rel, In (rel, timestamp_us e, kind e) inputs /\ rel_path e = normalize_rel rel.
Proof.
  unfold monitor_pipeline. intros H. apply debounce_run_sub in H.
  induction inputs as [|[[rel ts] k] inputs IH]; [destruct H|].
  cbn [omap list_omap] in H. unfold callback at 1 in H.
  destruct (should_ignore (normalize_rel rel) _ _) eqn:Ei.
  - destruct (IH H) as [Hf [rel' [Hin Hr]]]. split; [exact Hf|].
    exists rel'. split; [right; exact Hin | exact Hr].
  - destruct H as [<-|H].
    + split; [exact Ei|]. exists rel. split; [left; reflexivity | reflexivity].
    + destruct (IH H) as [Hf [rel' [Hin Hr]]]. split; [exact Hf|].
      exists rel'. split; [right; exact Hin | exact Hr].
Qed.

Lemma pipeline_emits_only_watched_witness :
  In (mkRaw ["src"%string; "a.rs"%string] 7 Modify)
     (monitor_pipeline default_config
        [([Normal "target"; Normal "x.rs"], 5, Modify);
         ([CurDir; Normal "src"; Normal "a.rs"], 7, Modify);
         ([Normal "src"; Normal "a.rs"], 8, Modify)]) /\
  should_ignore ["src"%string; "a.rs"%string] (ignore_top_level_dirs default_config)
    (ignore_extensions default_config) = false /\
  exists rel, In (rel, 7, Modify)
    [([Normal "target"; Normal "x.rs"], 5, Modify);
     ([CurDir; Normal "src"; Normal "a.rs"], 7, Modify);
     ([Normal "src"; Normal "a.rs"], 8, Modify)] /\
    ["src"%string; "a.rs"%string] = normalize_rel rel.
Proof.
  assert (H : In (mkRaw ["src"%string; "a.rs"%string] 7 Modify)
     (monitor_pipeline default_config
        [([Normal "target"; Normal "x.rs"], 5, Modify);
         ([CurDir; Normal "src"; Normal "a.rs"], 7, Modify);
         ([Normal "src"; Normal "a.rs"], 8, Modify)]))
    by (vm_compute; left; reflexivity).
  split; [exact H|]. exact (pipeline_emits_only_watched _ _ _ H).
Defined.

End MonitorFacts.

(* ================================================================= *)
(** * Properties of the battery operations (monitor.rs) *)
(* ================================================================= *)

Module BatteryOpsFacts.
Import Battery BatteryFacts.
Local Open Scope R_scope.

(** Leakage is path-independent: with a non-negative leak rate, decaying
    at [t1] and then at a later [t2] gives exactly the battery obtained by
    decaying once at [t2] (the clamp at [0] included), whether or not
    [t1] lies before the last decay. *)
Theorem apply_decay_compose (t1 t2 : R) (b : AttentionBattery) :
  0 <= leak_rate b -> t1 <= t2 ->
  apply_decay t2 (apply_decay t1 b) = apply_decay t2 b.
Proof.
  intros Hk H2. unfold apply_decay at 2.
  destruct (Rle_dec (last_decay b) t1) as [H1|]; [|reflexivity].
  unfold apply_decay. cbn [last_decay level capacity leak_rate causal_event_count].
  destruct (Rle_dec t1 t2) as [_|]; [|lra].
  destruct (Rle_dec (last_decay b) t2) as [_|]; [|lra].
  f_equal.
  assert (0 <= (t2 - t1) * leak_rate b) by (apply Rmult_le_pos; lra).
  assert (E : level b - (t2 - last_decay b) * leak_rate b =
              level b - (t1 - last_decay b) * leak_rate b - (t2 - t1) * leak_rate b) by ring.
  rewrite E. unfold Rmax at 2.
  destruct (Rle_dec (level b - (t1 - last_decay b) * leak_rate b) 0).
  - unfold Rmax. destruct (Rle_dec (0 - (t2 - t1) * leak_rate b) 0);
      destruct (Rle_dec (level b - (t1 - last_decay b) * leak_rate b - (t2 - t1) * leak_rate b) 0);
      lra.
  - reflexivity.
Qed.

Lemma apply_decay_compose_witness :
  0 <= leak_rate (new 20) /\ 10 <= 40 /\
  apply_decay 40 (apply_decay 10 (new 20)) = apply_decay 40 (new 20).
Proof.
  assert (H1 : 0 <= leak_rate (new 20)) by (cbn; lra).
  assert (H2 : 10 <= 40) by lra.
  split; [exact H1|]. split; [exact H2|].
  exact (apply_decay_compose 10 40 (new 20) H1 H2).
Defined.

(** The hardware-event gate of [charge]: the event counter becomes the
    larger of its old value and [hardware_events]; when no new hardware
    event arrived, keyboard hits and motor entropy are ignored and only
    leakage applies; in every case the level rises above the leaked level
    by at most [0.1] per new hardware event plus [20]; and it never drops
    below the leaked level when [motor_entropy] and [duration] are
    non-negative and the leaked level is within capacity. *)
Theorem charge_gate (now me d : R) (hw kb : nat) (b : AttentionBattery) :
  let b0 := apply_decay now b in
  let b' := charge now me d hw kb b in
  causal_event_count b' = Nat.max (causal_event_count b) hw /\
  ((hw <= causal_event_count b)%nat -> b' = b0) /\
  level b' <= level b0 + INR (hw - causal_event_count b) * 0.1 + 20 /\
  (0 <= me -> 0 <= d -> level b0 <= capacity b0 -> level b0 <= level b').
Proof.
  cbv zeta.
  assert (Hcnt : causal_event_count (apply_decay now b) = causal_event_count b).
  { unfold apply_decay. destruct (Rle_dec _ _); reflexivity. }
  unfold charge. rewrite Hcnt.
  destruct (Nat.eqb_spec (hw - causal_event_count b) 0) as [Hz|Hnz].
  - split; [rewrite Hcnt; lia|]. split; [reflexivity|].
    rewrite Hz. cbn [INR]. split; [lra|]. intros; lra.
  - cbn [causal_event_count level capacity]. split; [lia|].
    split; [intros; lia|].
    set (b0 := apply_decay now b) in *.
    pose proof (pos_INR (hw - causal_event_count b)).
    pose proof (pos_INR kb).
    assert (Hm1 : Rmin (me * d * 5) (INR (hw - causal_event_count b) * 0.1)
                  <= INR (hw - causal_event_count b) * 0.1) by apply Rmin_r.
    assert (Hm2 : Rmin (INR kb * 0.5) 20 <= 20) by apply Rmin_r.
    split.
    + eapply Rle_trans; [apply Rmin_l|]. lra.
    + intros Hme Hd Hc.
      assert (0 <= me * d * 5) by (apply Rmult_le_pos; [apply Rmult_le_pos|]; lra).
      assert (0 <= Rmin (me * d * 5) (INR (hw - causal_event_count b) * 0.1))
        by (apply Rmin_glb; lra).
      assert (0 <= Rmin (INR kb * 0.5) 20) by (apply Rmin_glb; lra).
      apply Rmin_glb; lra.
Qed.

(** [charge_focus] is monotone: more focus time, more edit bursts and more
    navigation events never give a lower level. *)
Theorem charge_focus_monotone (now fd1 fd2 : R) (eb1 eb2 nav1 nav2 : nat)
    (b : AttentionBattery) :
  fd1 <= fd2 -> (eb1 <= eb2)%nat -> (nav1 <= nav2)%nat ->
  level (charge_focus now fd1 eb1 nav1 b) <= level (charge_focus now fd2 eb2 nav2 b).
Proof.
  intros Hf He Hn. unfold charge_focus, set_level. cbn [level].
  set (b0 := apply_decay now b).
  pose proof (sqrt_le_1_alt _ _ (le_INR _ _ He)).
  pose proof (le_INR _ _ Hn).
  unfold Rmin.
  destruct (Rle_dec (level b0 + (fd1 / 60 * 10 + sqrt (INR eb1) * 5 + INR nav1 * 2)) (capacity b0));
  destruct (Rle_dec (level b0 + (fd2 / 60 * 10 + sqrt (INR eb2) * 5 + INR nav2 * 2)) (capacity b0));
  lra.
Qed.

Lemma charge_focus_monotone_witness :
  60 <= 120 /\ (3 <= 4)%nat /\ (1 <= 5)%nat /\
  level (charge_focus 0 60 3 1 (new 0)) <= level (charge_focus 0 120 4 5 (new 0)).
Proof.
  assert (H1 : 60 <= 120) by lra. assert (H2 : (3 <= 4)%nat) by lia.
  assert (H3 : (1 <= 5)%nat) by lia.
  split; [exact H1|]. split; [exact H2|]. split; [exact H3|].
  exact (charge_focus_monotone 0 60 120 3 4 1 5 (new 0) H1 H2 H3).
Defined.

End BatteryOpsFacts.

(* ================================================================= *)
(** * Properties of the correlation loop of [GitMonitor] (monitor.rs) *)
(* ================================================================= *)

Module GitMonFacts.
Import GitMon.
Local Open Scope R_scope.

Lemma ncd_against_context_range
    (encode_all : list Byte.byte -> Z -> option (list Byte.byte)) (a c : string) :
  0 <= Complexity.calculate_ncd_against_context encode_all a c <= 1.
Proof.
  unfold Complexity.calculate_ncd_against_context. cbv zeta.
  match goal with |- context [Req_dec_T ?x 0] => destruct (Req_dec_T x 0) end; [lra|].
  split; [|apply Rmin_r]. apply Rmin_glb; [apply Rmax_r | lra].
Qed.

Lemma coupling_range (cc me : R) : 0 <= Stats.calculate_coupling_score cc me <= 1.
Proof.
  unfold Stats.calculate_coupling_score. destruct (Stats.Rltb cc 0.1); [lra|].
  apply ScoreFacts.fclamp_range.
Qed.

Lemma entropic_cost_nonneg
    (encode_all : list Byte.byte -> Z -> option (list Byte.byte))
    (parse_file : string -> option (list Complexity.Item))
    (code : string) (fp : option Monitor.PathBuf) :
  0 <= Complexity.estimate_entropic_cost encode_all parse_file code fp.
Proof.
  unfold Complexity.estimate_entropic_cost. destruct (String.eqb code ""); [lra|].
  cbv zeta. eapply Rle_trans; [|apply Rmax_r]. lra.
Qed.

Lemma get_metrics_focus_nonneg (now : R) (t : Focus.FocusTracker) :
  map_Forall (fun _ v => 0 <= v) (Focus.file_focus_accum t) ->
  0 <= Focus.Metrics.total_focus_mins (Focus.get_metrics now t).
Proof.
  intros Hinv. pose proof (FocusFacts.focus_fold_nonneg (Focus.productive_files t) _ Hinv).
  unfold Focus.get_metrics. cbn [Focus.Metrics.total_focus_mins].
  destruct (Focus.current_session t) as [s|]; [|assumption].
  destruct (Focus.file_path s); [|assumption].
  destruct (bool_decide _); [|assumption].
  pose proof (FocusFacts.focus_minutes_nonneg now s). lra.
Qed.

Lemma history_cap (l : list R) (x : R) :
  (List.length l <= 50)%nat ->
  (List.length (if Nat.ltb 50 (List.length (l ++ [x])) then tl (l ++ [x]) else l ++ [x])
   <= 50)%nat.
Proof.
  intros Hl. destruct (l ++ [x]) as [|y r] eqn:E; [cbn; lia|].
  apply (f_equal (@List.length R)) in E. rewrite List.length_app in E. cbn [List.length] in *.
  destruct (Nat.ltb_spec 50 (S (List.length r))); cbn [tl List.length]; lia.
Qed.

Section Loop.
Variable encode_all : list Byte.byte -> Z -> option (list Byte.byte).
Variable parse_file : string -> option (list Complexity.Item).
Variable path_key : Monitor.PathBuf -> string.
Variable watch_root : Monitor.PathBuf.
Variable analysis_interval : R.
Variable min_entropy : R.

Lemma signals_step (op : GitOp) (g : GitMonitor) :
  0 <= latest_ncd g <= 1 -> 0 <= latest_coupling g <= 1 ->
  (List.length (score_history g) <= 50)%nat -> (0 <= keyboard_hits g < 2 ^ 64)%Z ->
  let g' := git_step encode_all parse_file path_key watch_root analysis_interval
              min_entropy op g in
  (0 <= latest_ncd g' <= 1 /\ 0 <= latest_coupling g' <= 1 /\
   (List.length (score_history g') <= 50)%nat /\ (0 <= keyboard_hits g' < 2 ^ 64)%Z).
Proof.
  intros Hn Hc Hh Hk. cbv zeta. destruct op as [ev|now ev|now ev content ctx|now a]; cbn [git_step].
  - unfold handle_input_event. cbn. repeat split; try lra; try lia.
    + destruct ev; [lia|]. apply Z.mod_pos_bound. lia.
    + destruct ev; [lia|]. apply Z.mod_pos_bound. lia.
  - unfold handle_sensor_event. cbn. repeat split; try lra; lia.
  - unfold handle_file_event.
    destruct (Monitor.EditKind_eqb _ _); [repeat split; try lra; lia|].
    destruct content as [content|]; [|repeat split; try lra; lia].
    cbv zeta.
    destruct (Battery.consume _ _ _) as [he b']. cbn.
    pose proof (coupling_range
      (Complexity.estimate_entropic_cost encode_all parse_file content
         (Some (watch_root ++ Monitor.rel_path ev)%list) / 100)
      (match latest_metrics g with
       | Some m => Rmin (velocity_entropy m / 8) 1 | None => 0 end)).
    assert (0 <= (if negb (String.eqb ctx "") then
              Complexity.calculate_ncd_against_context encode_all content ctx
            else Complexity.calculate_compression_ratio encode_all content) <= 1).
    { destruct (negb _); [apply ncd_against_context_range|].
      apply ComplexityFacts.compression_ratio_range. }
    repeat split; try lra; lia.
  - unfold run_analysis. destruct a as [m|]; [|repeat split; try lra; lia].
    cbn. repeat split; try lra; try lia. apply history_cap. exact Hh.
Qed.

Lemma events_step (op : GitOp) (g : GitMonitor) :
  events_captured (git_step encode_all parse_file path_key watch_root analysis_interval
                     min_entropy op g) =
  (events_captured g + match op with GInput _ => 1 | _ => 0 end)%nat.
Proof.
  destruct op as [ev|now ev|now ev content ctx|now a]; cbn [git_step].
  - cbn. lia.
  - cbn. lia.
  - unfold handle_file_event.
    destruct (Monitor.EditKind_eqb _ _); [lia|].
    destruct content as [content|]; [|lia]. cbv zeta.
    destruct (Battery.consume _ _ _). cbn. lia.
  - unfold run_analysis. destruct a; cbn; lia.
Qed.

Lemma battery_step (op : GitOp) (g : GitMonitor) :
  0 <= min_entropy -> 0 <= analysis_interval ->
  Forall (fun m => 0 <= velocity_entropy m) (analyses [op]) ->
  Battery.battery_inv (battery g) ->
  map_Forall (fun _ v => 0 <= v) (Focus.file_focus_accum (focus_tracker g)) ->
  let g' := git_step encode_all parse_file path_key watch_root analysis_interval
              min_entropy op g in
  Battery.battery_inv (battery g') /\
  map_Forall (fun _ v => 0 <= v) (Focus.file_focus_accum (focus_tracker g')).
Proof.
  intros Hme Hai Hop Hb Hf. cbv zeta.
  destruct op as [ev|now ev|now ev content ctx|now a]; cbn [git_step].
  - split; assumption.
  - unfold handle_sensor_event. cbn [battery focus_tracker]. split; [exact Hb|].
    destruct ev as [fp| |p d|p ts| | |p].
    + exact (FocusFacts.focus_accum_nonneg_step (Focus.OpFocusGained now fp) _ Hf).
    + exact (FocusFacts.focus_accum_nonneg_step (Focus.OpFocusLost now) _ Hf).
    + exact (FocusFacts.focus_accum_nonneg_step (Focus.OpEditBurst now p d) _ Hf).
    + exact (FocusFacts.focus_accum_nonneg_step (Focus.OpNavigation p ts) _ Hf).
    + exact (FocusFacts.focus_accum_nonneg_step (Focus.OpHeartbeat now) _ Hf).
    + exact (FocusFacts.focus_accum_nonneg_step Focus.OpReset _ Hf).
    + exact (FocusFacts.focus_accum_nonneg_step (Focus.OpHeartbeat now) _ Hf).
  - unfold handle_file_event.
    destruct (Monitor.EditKind_eqb _ _); [split; assumption|].
    destruct content as [content|]; [|split; assumption]. cbv zeta.
    set (cost := Complexity.estimate_entropic_cost encode_all parse_file content
                   (Some (watch_root ++ Monitor.rel_path ev)%list) * (min_entropy / 2.5)).
    assert (Hc : 0 <= cost).
    { unfold cost. apply Rmult_le_pos; [apply entropic_cost_nonneg | lra]. }
    pose proof (BatteryFacts.consume_inv now cost (battery g) Hc Hb) as Hi.
    destruct (Battery.consume now cost (battery g)) as [he b'] eqn:E.
    cbn [snd] in Hi. cbn [battery focus_tracker]. split; [exact Hi|].
    destruct he; [|exact Hf].
    exact (FocusFacts.focus_accum_nonneg_step
             (Focus.OpMarkProductive (path_key (watch_root ++ Monitor.rel_path ev)%list)) _ Hf).
  - unfold run_analysis. destruct a as [m|]; [|split; assumption].
    cbn [battery focus_tracker]. split; [|exact Hf].
    cbn [analyses flat_map app] in Hop. inversion Hop as [|? ? Hm _]; subst.
    apply BatteryFacts.charge_focus_inv.
    + pose proof (get_metrics_focus_nonneg now (focus_tracker g) Hf). lra.
    + apply BatteryFacts.charge_inv; [lra | exact Hai | exact Hb].
Qed.

(** Whatever the compressor, the parser and the file contents, the
    correlation loop started by [GitMonitor::new] keeps its smoothed
    signals in range: the code NCD and the coupling stay in [[0, 1]]
    (each update is a convex combination with a value in [[0, 1]]), the
    score history never exceeds 50 entries, and the keyboard counter stays
    a [u64]. *)
Theorem monitor_signals_bounded (now : R) (ops : list GitOp) :
  let g := git_run encode_all parse_file path_key watch_root analysis_interval
             min_entropy (new now) ops in
  0 <= latest_ncd g <= 1 /\ 0 <= latest_coupling g <= 1 /\
  (List.length (score_history g) <= 50)%nat /\ (0 <= keyboard_hits g < 2 ^ 64)%Z.
Proof.
  cbv zeta. unfold git_run.
  assert (H : 0 <= latest_ncd (new now) <= 1 /\ 0 <= latest_coupling (new now) <= 1 /\
              (List.length (score_history (new now)) <= 50)%nat /\
              (0 <= keyboard_hits (new now) < 2 ^ 64)%Z)
    by (cbn; repeat split; try lra; lia).
  revert H. generalize (new now). induction ops as [|op ops IH]; intros g H; [exact H|].
  cbn [fold_left]. apply IH.
  destruct H as [H1 [H2 [H3 H4]]]. exact (signals_step op g H1 H2 H3 H4).
Qed.

(** [events_captured] counts the input events: after any sequence of loop
    branches from [GitMonitor::new], it equals the number of
    [handle_input_event] calls (mouse or keyboard); file events, sensor
    events and analyses never change it. *)
Theorem events_captured_counts_inputs (now : R) (ops : list GitOp) :
  events_captured (git_run encode_all parse_file path_key watch_root analysis_interval
                     min_entropy (new now) ops) =
  List.length (List.filter (fun op => match op with GInput _ => true | _ => false end) ops).
Proof.
  unfold git_run. change (List.length (List.filter
    (fun op => match op with GInput _ => true | _ => false end) ops))
    with (events_captured (new now) + List.length (List.filter
    (fun op => match op with GInput _ => true | _ => false end) ops))%nat.
  generalize (new now). induction ops as [|op ops IH]; intros g; cbn [fold_left].
  - cbn. lia.
  - rewrite IH, events_step. destruct op; cbn [List.filter List.length]; lia.
Qed.

(** The attention battery of the running monitor stays within
    [[0, capacity]] with [capacity = 100], provided [min_entropy] and the
    analysis interval are non-negative and every mouse analysis reports a
    non-negative velocity entropy: ticket costs are then non-negative and
    so is the focus time fed to [charge_focus]. *)
Theorem monitor_battery_bounded (now : R) (ops : list GitOp) :
  0 <= min_entropy -> 0 <= analysis_interval ->
  Forall (fun m => 0 <= velocity_entropy m) (analyses ops) ->
  Battery.battery_inv (battery (git_run encode_all parse_file path_key watch_root
                                  analysis_interval min_entropy (new now) ops)).
Proof.
  intros Hme Hai Hops. unfold git_run.
  assert (H : Battery.battery_inv (battery (new now)) /\
              map_Forall (fun _ v => 0 <= v) (Focus.file_focus_accum (focus_tracker (new now))))
    by (split; [apply BatteryFacts.new_inv | apply map_Forall_empty]).
  enough (Hall : forall g, Battery.battery_inv (battery g) /\
              map_Forall (fun _ v => 0 <= v) (Focus.file_focus_accum (focus_tracker g)) ->
              Battery.battery_inv (battery (fold_left (fun g op => git_step encode_all
                 parse_file path_key watch_root analysis_interval min_entropy op g) ops g)))
    by exact (Hall _ H).
  induction ops as [|op ops IH]; intros g [Hb Hf]; [exact Hb|].
  replace (analyses (op :: ops)) with (analyses [op] ++ analyses ops) in Hops
    by (unfold analyses; cbn [flat_map]; rewrite app_nil_r; reflexivity).
  apply Forall_app in Hops as [Hop Hops].
  cbn [fold_left]. apply (IH Hops). exact (battery_step op g Hme Hai Hop Hb Hf).
Qed.

End Loop.

Lemma monitor_battery_bounded_witness :
  0 <= 2.5 /\ 0 <= 5 /\
  Forall (fun m => 0 <= velocity_entropy m)
    (analyses [GInput Keyboard; GAnalysis 1 (Some (mkKinematic 0 4 0 0 0 0 false))]) /\
  Battery.battery_inv (battery (git_run (fun _ _ => None) (fun _ => None) (fun _ => ""%string)
     [] 5 2.5 (new 0)
     [GInput Keyboard; GAnalysis 1 (Some (mkKinematic 0 4 0 0 0 0 false))])).
Proof.
  assert (H1 : 0 <= 2.5) by lra. assert (H2 : 0 <= 5) by lra.
  assert (H3 : Forall (fun m => 0 <= velocity_entropy m)
    (analyses [GInput Keyboard; GAnalysis 1 (Some (mkKinematic 0 4 0 0 0 0 false))]))
    by (cbn; constructor; [cbn; lra | constructor]).
  split; [exact H1|]. split; [exact H2|]. split; [exact H3|].
  exact (monitor_battery_bounded (fun _ _ => None) (fun _ => None) (fun _ => ""%string)
           [] 5 2.5 0 _ H1 H2 H3).
Defined.

End GitMonFacts.

(* ================================================================= *)
(** * Properties of ticket signing *)
(* ================================================================= *)

Module TicketFacts.
Import Battery Ticket TicketCrypto.
Local Open Scope R_scope.

Lemma all_ascii_append (s1 s2 : string) :
  all_ascii (String.append s1 s2) = all_ascii s1 && all_ascii s2.
Proof.
  induction s1 as [|c s1 IH]; [reflexivity|].
  simpl. rewrite IH. apply andb_assoc.
Qed.

Lemma format_u64_ascii (n : nat) : all_ascii (format_u64 n) = true.
Proof.
  unfold format_u64. induction (Nat.to_uint n) as [|d IH|d IH|d IH|d IH|d IH|d IH|d IH
    |d IH|d IH|d IH]; cbn; auto.
Qed.

Section Roundtrip.
Context {SigningKey VerifyingKey : Type}.
Variable verifying_key : SigningKey -> VerifyingKey.
Variable sign_to_bytes : SigningKey -> list Byte.byte -> list Byte.byte.
Variable verify_from_bytes : VerifyingKey -> list Byte.byte -> list Byte.byte -> bool.
Variable format_f64_2 : R -> string.
(** [Signature::to_bytes] returns a [[u8; 64]]. *)
Hypothesis to_bytes_len :
  forall sk m, List.length (sign_to_bytes sk m) = 64%nat.
(** Ed25519 correctness: a signature made with a signing key verifies,
    over the same bytes, under that key's [verifying_key()]. *)
Hypothesis ed25519_correct :
  forall sk m, verify_from_bytes (verifying_key sk) m (sign_to_bytes sk m) = true.
(** [{:.2}] writes an [f64] with ASCII characters (sign, digits, point,
    [NaN], [inf]). *)
Hypothesis format_ascii : forall x, all_ascii (format_f64_2 x) = true.

(** C3. Whenever the battery pays the adjusted cost of a [GetTicket{cost}]
    request, the response succeeds and carries a signature, the signed
    bytes are exactly [as_bytes] of the ASCII message
    ["VALID:cost=<cost with 2 decimals>:ts=<uptime seconds>"] (the
    requested [cost], not the adjusted one), and [verify_signature] with
    the daemon's public key ([signing_key.verifying_key()]) accepts the
    returned signature over exactly those bytes. *)
Theorem ticket_signature_roundtrip (signing_key : SigningKey) (now : R)
    (uptime_secs : nat) (difficulty_factor cost : R) (battery : AttentionBattery) :
  fst (consume now (cost * difficulty_factor) battery) = true ->
  let resp := fst (handle_get_ticket sign_to_bytes format_f64_2 signing_key now
                     uptime_secs difficulty_factor cost battery) in
  let message := ticket_message format_f64_2 cost uptime_secs in
  let payload := Complexity.as_bytes message in
  success resp = true /\
  all_ascii message = true /\
  exists signature_bytes,
    signature resp = Some signature_bytes /\
    result_ok (sign_data sign_to_bytes signing_key payload) = Some signature_bytes /\
    verify_signature verify_from_bytes (verifying_key signing_key) payload signature_bytes
      = inl true.
Proof.
  intros Hc. cbv zeta.
  unfold handle_get_ticket, get_ticket.
  destruct (consume now (cost * difficulty_factor) battery) as [[|] b]; cbn in Hc;
    [|discriminate Hc].
  cbn [fst success signature]. split; [reflexivity|]. split.
  - unfold ticket_message. rewrite !all_ascii_append, format_ascii, format_u64_ascii.
    reflexivity.
  - eexists. split; [reflexivity|]. split; [reflexivity|].
    unfold verify_signature. rewrite to_bytes_len. cbn [Nat.eqb negb].
    rewrite ed25519_correct. reflexivity.
Qed.
End Roundtrip.

Lemma ticket_signature_roundtrip_witness :
  fst (consume 0 (1 * 1) (new 0)) = true /\
  let resp := fst (handle_get_ticket (fun (_ : unit) _ => repeat Byte.x00 64)
                     (fun _ => "1.00"%string) tt 0 7 1 1 (new 0)) in
  let message := ticket_message (fun _ => "1.00"%string) 1 7 in
  let payload := Complexity.as_bytes message in
  success resp = true /\
  all_ascii message = true /\
  exists signature_bytes,
    signature resp = Some signature_bytes /\
    result_ok (sign_data (fun (_ : unit) _ => repeat Byte.x00 64) tt payload)
      = Some signature_bytes /\
    verify_signature (fun (_ : unit) _ s => Nat.eqb (List.length s) 64) tt payload
      signature_bytes = inl true.
Proof.
  assert (Hc : fst (consume 0 (1 * 1) (new 0)) = true).
  { unfold consume, apply_decay, new. cbn [last_decay level leak_rate].
    destruct (Rle_dec 0 0) as [_|n]; [|lra]. cbn [level set_level].
    destruct (Rle_dec (1 * 1) (Rmax (15 - (0 - 0) * 0.5) 0)) as [_|n];
      [reflexivity|].
    exfalso. apply n. unfold Rmax. destruct (Rle_dec _ _); lra. }
  split; [exact Hc|].
  exact (ticket_signature_roundtrip (fun _ => tt) (fun _ _ => repeat Byte.x00 64)
           (fun _ _ s => Nat.eqb (List.length s) 64) (fun _ => "1.00"%string)
           (fun _ _ => eq_refl) (fun _ _ => eq_refl) (fun _ => eq_refl)
           tt 0 7 1 1 (new 0) Hc).
Defined.

End TicketFacts.
